(** * Purification TEBD: a shallow embedding of
    [tenpy/algorithms/purification_tebd.py] and the properties of its
    bond update, disentangler dispatch, Renyi optimizer and imaginary-time
    driver.

    Conventions of the embedding.
    - A Python exception is a value of [PyErr]; a call that may raise
      returns a [result].
    - A method of the engine is a state transformer [M A]: it takes the
      engine object and returns the (possibly mutated) object together with
      the value returned or the exception raised.
    - Python floats are IEEE doubles: rationals extended with [inf],
      [-inf] and [nan], every arithmetic operation rounding its exact
      result to the nearest double, a tie to the even one
      ([round_double]); the sign of zero is not modelled.
    - Python integers are unbounded; a C [long] has 64 bits.
    - Tensors are dense named-leg arrays over a scalar type [F]; the charge
      data of [np_conserved] (and with it the [qconj] arguments) is not
      modelled. *)

From Stdlib Require Import ZArith QArith Qabs Qround String Ascii List Bool Lia.
From Stdlib Require Import DecimalString Lqa Ring Qcanon.
From stdpp Require Import base option list gmap strings.
Import ListNotations.

Local Open Scope string_scope.
Local Open Scope Z_scope.

(** ** Python values, exceptions and results *)

Inductive PyErr :=
| ValueError (msg : string)
| KeyError (key : string)
| IndexError
| TypeError
| ZeroDivisionError
| OverflowError
| UnboundLocalError (name : string).

Inductive result (A : Type) :=
| Ok (a : A)
| Raise (e : PyErr).
Arguments Ok {A} a.
Arguments Raise {A} e.

#[global] Instance result_ret : MRet result := @Ok.
#[global] Instance result_bind : MBind result :=
  λ A B f m, match m with Ok a => f a | Raise e => Raise e end.

Definition is_Ok {A} (r : result A) : bool :=
  match r with Ok _ => true | Raise _ => false end.

(** Python floats: exact rationals with the IEEE special values. *)
Inductive pyfloat := Fin (q : Q) | PInf | NInf | NaN.

Definition Qltb (a b : Q) : bool := negb (Qle_bool b a).

Definition fl_neg (x : pyfloat) : pyfloat :=
  match x with Fin a => Fin (- a) | PInf => NInf | NInf => PInf | NaN => NaN end.

(** [floor(log2(n / d))] for positive [n] and [d]. *)
Definition log2_floor (n d : Z) : Z :=
  let t := Z.log2 n - Z.log2 d in
  if (if 0 <=? t then d * 2 ^ t <=? n else d <=? n * 2 ^ (- t)) then t else t - 1.

(** [n / d] rounded to the nearest integer, a tie to the even one, for
    [n >= 0] and [d > 0]. *)
Definition round_half_even (n d : Z) : Z :=
  let f := n / d in
  match 2 * (n mod d) ?= d with
  | Lt => f
  | Gt => f + 1
  | Eq => if Z.even f then f else f + 1
  end.

(** The double nearest to a rational, as IEEE 754 rounds the exact result
    of an operation: 53 bits of mantissa [m] at the exponent [e] of the
    leading bit, no exponent below that of the subnormals, a tie to the
    even mantissa, and infinity from [2 ^ 1024] on. *)
Definition round_double (q : Q) : pyfloat :=
  let n := Z.abs (Qnum q) in
  let d := Zpos (Qden q) in
  if n =? 0 then Fin 0
  else
    let e := Z.max (log2_floor n d - 52) (- 1074) in
    let m := if 0 <=? e then round_half_even n (d * 2 ^ e)
             else round_half_even (n * 2 ^ (- e)) d in
    let s := Z.sgn (Qnum q) in
    if 0 <=? e
    then (if 2 ^ 1024 <=? m * 2 ^ e
          then (if s <? 0 then NInf else PInf)
          else Fin (inject_Z (s * m * 2 ^ e)))
    else Fin (Qred (Qmake (s * m) (Z.to_pos (2 ^ (- e))))).
Arguments round_double : simpl never.

(** The float [x] is exactly the rational [r]. *)
Definition fl_exact (x : pyfloat) (r : Q) : Prop :=
  match x with Fin a => (a == r)%Q | _ => False end.

Definition fl_add (x y : pyfloat) : pyfloat :=
  match x, y with
  | NaN, _ | _, NaN => NaN
  | Fin a, Fin b => round_double (a + b)
  | PInf, NInf | NInf, PInf => NaN
  | PInf, _ | _, PInf => PInf
  | NInf, _ | _, NInf => NInf
  end.

Definition fl_sub (x y : pyfloat) : pyfloat := fl_add x (fl_neg y).

Definition fl_abs (x : pyfloat) : pyfloat :=
  match x with Fin a => Fin (Qabs a) | PInf | NInf => PInf | NaN => NaN end.

(** [x < y] on floats: false as soon as one side is [nan]. *)
Definition fl_ltb (x y : pyfloat) : bool :=
  match x, y with
  | NaN, _ | _, NaN => false
  | Fin a, Fin b => Qltb a b
  | NInf, NInf | PInf, _ => false
  | NInf, _ => true
  | Fin _, PInf => true
  | Fin _, NInf => false
  end.

(** [x / y] on floats: a zero divisor raises, whatever the dividend. *)
Definition fl_div (x y : pyfloat) : result pyfloat :=
  match y with
  | NaN => Ok NaN
  | Fin b =>
      if Qeq_bool b 0 then Raise ZeroDivisionError
      else match x with
           | Fin a => Ok (round_double (a / b))
           | PInf => Ok (if Qltb 0 b then PInf else NInf)
           | NInf => Ok (if Qltb 0 b then NInf else PInf)
           | NaN => Ok NaN
           end
  | PInf | NInf =>
      match x with Fin _ => Ok (Fin 0) | _ => Ok NaN end
  end.

(** [int(x)]: truncation toward zero. *)
Definition Qtrunc (q : Q) : Z := Z.quot (Qnum q) (Zpos (Qden q)).

Definition py_int (x : pyfloat) : result Z :=
  match x with
  | Fin q => Ok (Qtrunc q)
  | PInf | NInf => Raise OverflowError
  | NaN => Raise (ValueError "cannot convert float NaN to integer")
  end.

(** The values a configuration dictionary holds. *)
Inductive PyVal :=
| PyNone
| PyStr (s : string)
| PyInt (z : Z)
| PyFloat (x : pyfloat).

(** A number used as a float operand (as [/] and [+] coerce it): an
    integer is converted to the nearest double, and one beyond the range
    of the doubles raises. *)
Definition py_float (v : PyVal) : result pyfloat :=
  match v with
  | PyInt z =>
      match round_double (inject_Z z) with
      | Fin q => Ok (Fin q)
      | _ => Raise OverflowError
      end
  | PyFloat x => Ok x
  | PyNone | PyStr _ => Raise TypeError
  end.

(** The exact value of a finite number. *)
Definition number_value (v : PyVal) : option Q :=
  match v with
  | PyInt z => Some (inject_Z z)
  | PyFloat (Fin q) => Some q
  | _ => None
  end.

Definition is_number (v : PyVal) : bool :=
  match v with PyInt _ | PyFloat _ => true | PyNone | PyStr _ => false end.

(** [a / b] under [from __future__ import division]: two integers give
    the double nearest to their exact quotient, without converting
    either; two numbers of which one is a float are both converted and
    divided as floats; anything else is an unsupported operand. *)
Definition py_truediv (a b : PyVal) : result pyfloat :=
  match a, b with
  | PyInt x, PyInt y =>
      if y =? 0 then Raise ZeroDivisionError
      else match round_double (inject_Z x / inject_Z y) with
           | Fin q => Ok (Fin q)
           | _ => Raise OverflowError
           end
  | _, _ =>
      if is_number a && is_number b
      then x ← py_float a; y ← py_float b; fl_div x y
      else Raise TypeError
  end.

(** [x < v] for a float [x] and an arbitrary object [v], with Python 2's
    ordering of unlike types: [None] below every number, every number below
    every string. *)
Definition py_float_lt (x : pyfloat) (v : PyVal) : bool :=
  match v with
  | PyFloat y => fl_ltb x y
  | PyInt z => fl_ltb x (Fin (inject_Z z))
  | PyStr _ => true
  | PyNone => false
  end.

(** [self.verbose >= n]. *)
Definition py_ge (a b : Z) : bool := (b <=? a)%Z.

(** [xrange(v)]: the number of iterations; the bound has to fit a C
    [long]. *)
Definition py_xrange (v : PyVal) : result nat :=
  match v with
  | PyInt z =>
      if (- 2 ^ 63 <=? z) && (z <? 2 ^ 63) then Ok (Z.to_nat z)
      else Raise OverflowError
  | _ => Raise TypeError
  end.

(** [lst[i]] for a Python list of length [len]: the position read or
    written; negative indices count from the end, anything else raises. *)
Definition py_index (len : nat) (i : Z) : result nat :=
  if (0 <=? i) && (i <? Z.of_nat len) then Ok (Z.to_nat i)
  else if (- Z.of_nat len <=? i) && (i <? 0) then Ok (Z.to_nat (Z.of_nat len + i))
  else Raise IndexError.

(** [lst[i]] read: the position and the value there. *)
Definition py_getitem {A} (lst : list A) (i : Z) : result (nat * A) :=
  k ← py_index (length lst) i;
  match lst !! k with
  | Some x => Ok (k, x)
  | None => Raise IndexError
  end.

(** *** [repr] of a string (Python 2) *)

Definition hex_digit (n : nat) : ascii :=
  nth n (list_ascii_of_string "0123456789abcdef") "0"%char.

Definition repr_char (quote : ascii) (c : ascii) : string :=
  let n := nat_of_ascii c in
  if Ascii.eqb c quote || Ascii.eqb c "\"%char
  then String "\"%char (String c EmptyString)
  else if Nat.eqb n 9 then "\t"
  else if Nat.eqb n 10 then "\n"
  else if Nat.eqb n 13 then "\r"
  else if Nat.ltb n 32 || Nat.leb 127 n
  then String "\"%char (String "x"%char
         (String (hex_digit (Nat.div n 16)) (String (hex_digit (Nat.modulo n 16)) EmptyString)))
  else String c EmptyString.

Fixpoint string_has (c : ascii) (s : string) : bool :=
  match s with
  | EmptyString => false
  | String d r => Ascii.eqb c d || string_has c r
  end.

Fixpoint repr_body (quote : ascii) (s : string) : string :=
  match s with
  | EmptyString => EmptyString
  | String c r => repr_char quote c ++ repr_body quote r
  end.

Definition repr_str (s : string) : string :=
  let dquote : ascii := ascii_of_nat 34 in
  let quote : ascii :=
    if string_has "'"%char s && negb (string_has dquote s)
    then dquote else "'"%char in
  String quote (repr_body quote s ++ String quote EmptyString).

(** ** Dense named-leg tensors (the tensor-algebra collaborator)

    [np_conserved] is not part of the sources: the operations the engine
    calls are modelled here on dense data, with the leg and label rules of
    the library and without its charges. *)

Class Scalar (F : Type) := {
  F0 : F;
  F1 : F;
  Fadd : F → F → F;
  Fmul : F → F → F;
  Fopp : F → F;
  Fdiv : F → F → F;
  Fconj : F → F
}.

(** A leg is either elementary, of some dimension, or a pipe made from the
    legs it combines. *)
#[warnings="-register-all"]
Inductive LegCharge :=
| Leg (d : nat)
| LegPipe (subs : list LegCharge).

Definition dims_prod (ds : list nat) : nat := fold_right Nat.mul 1%nat ds.

Fixpoint leg_dim (l : LegCharge) : nat :=
  match l with
  | Leg d => d
  | LegPipe subs => dims_prod (map leg_dim subs)
  end.

Fixpoint LegCharge_eqb (l1 l2 : LegCharge) : bool :=
  match l1, l2 with
  | Leg d1, Leg d2 => Nat.eqb d1 d2
  | LegPipe s1, LegPipe s2 =>
      (fix all2 (a : list LegCharge) (b : list LegCharge) : bool :=
         match a, b with
         | [], [] => true
         | x :: a', y :: b' => LegCharge_eqb x y && all2 a' b'
         | _, _ => false
         end) s1 s2
  | _, _ => false
  end.

(** An array: its legs, one label per leg (the empty string for an
    unlabelled leg) and its entries, read at one index per leg. *)
Record Array (F : Type) := mkArray {
  legs : list LegCharge;
  labels : list string;
  data : list nat → F
}.
Arguments mkArray {F} legs labels data.
Arguments legs {F} a.
Arguments labels {F} a.
Arguments data {F} a idx.

Definition rank {F} (a : Array F) : nat := length (legs a).
Definition shape {F} (a : Array F) : list nat := map leg_dim (legs a).

(** *** Labels *)

Fixpoint find_label (lbl : string) (ls : list string) : option nat :=
  match ls with
  | [] => None
  | l :: r => if String.eqb lbl l then Some 0%nat else S <$> find_label lbl r
  end.

Definition get_leg_index {F} (a : Array F) (lbl : string) : result nat :=
  match find_label lbl (labels a) with
  | Some k => Ok k
  | None => Raise (KeyError lbl)
  end.

Fixpoint get_leg_indices {F} (a : Array F) (lbls : list string) : result (list nat) :=
  match lbls with
  | [] => Ok []
  | l :: r => k ← get_leg_index a l; ks ← get_leg_indices a r; Ok (k :: ks)
  end.

Definition is_sep (c : ascii) : bool :=
  Ascii.eqb c "."%char || Ascii.eqb c ")"%char || Ascii.eqb c "("%char.

(** The conjugate of a label: a trailing star is toggled on every
    elementary label, also inside a combined label. *)
Fixpoint conj_label (s : string) : string :=
  match s with
  | EmptyString => EmptyString
  | String c r =>
      let last :=
        match r with
        | EmptyString => true
        | String d _ => Ascii.eqb d "."%char || Ascii.eqb d ")"%char
        end in
      if last && negb (is_sep c)
      then (if Ascii.eqb c "*"%char then conj_label r
            else String c (String "*"%char (conj_label r)))
      else String c (conj_label r)
  end.

Fixpoint join_labels (ls : list string) : string :=
  match ls with
  | [] => EmptyString
  | [l] => l
  | l :: r => l ++ "." ++ join_labels r
  end.

Definition combined_label (ls : list string) : string :=
  "(" ++ join_labels ls ++ ")".

Fixpoint split_top (depth : nat) (cur : list ascii) (s : list ascii) : list string :=
  match s with
  | [] => [string_of_list_ascii (rev cur)]
  | c :: r =>
      if Ascii.eqb c "."%char && Nat.eqb depth 0
      then string_of_list_ascii (rev cur) :: split_top 0 [] r
      else if Ascii.eqb c "("%char then split_top (S depth) (c :: cur) r
      else if Ascii.eqb c ")"%char then split_top (Nat.pred depth) (c :: cur) r
      else split_top depth (c :: cur) r
  end.

(** The labels a combined label ["(a.b.c)"] was made from. *)
Definition split_leg_label (lbl : string) : option (list string) :=
  match list_ascii_of_string lbl with
  | c :: r =>
      if Ascii.eqb c "("%char && Ascii.eqb (List.last r "x"%char) ")"%char
      then Some (split_top 0 [] (removelast r))
      else None
  | [] => None
  end.

(** *** Index arithmetic *)

Fixpoint unravel (dims : list nat) (k : nat) : list nat :=
  match dims with
  | [] => []
  | _ :: ds => Nat.div k (dims_prod ds) :: unravel ds (Nat.modulo k (dims_prod ds))
  end.

Fixpoint ravel (dims : list nat) (idx : list nat) : nat :=
  match dims, idx with
  | _ :: ds, i :: r => (i * dims_prod ds + ravel ds r)%nat
  | _, _ => 0%nat
  end.

Arguments dims_prod : simpl never.
Arguments unravel : simpl never.
Arguments ravel : simpl never.

Fixpoint find_pos (p : nat) (ax : list nat) : option nat :=
  match ax with
  | [] => None
  | q :: r => if Nat.eqb p q then Some 0%nat else S <$> find_pos p r
  end.

Definition is_axis (ax : list nat) (p : nat) : bool := existsb (Nat.eqb p) ax.

(** The legs of an [n]-leg array that are not among [ax], in order. *)
Definition free_axes (n : nat) (ax : list nat) : list nat :=
  List.filter (λ p, negb (is_axis ax p)) (seq 0 n).

Definition pick {A} (l : list A) (d : A) (ps : list nat) : list A :=
  map (λ p, nth p l d) ps.

(** The group a leg belongs to and its place in it, if it is combined. *)
Fixpoint find_in_groups (p : nat) (gs : list (list nat)) : option (nat * nat) :=
  match gs with
  | [] => None
  | g :: r =>
      match find_pos p g with
      | Some j => Some (0%nat, j)
      | None => (λ gj : nat * nat, (S gj.1, gj.2)) <$> find_in_groups p r
      end
  end.

(** A leg survives combination when it is not combined or is the first of
    its group; [new_axis] is where it then sits. *)
Definition kept (gs : list (list nat)) (p : nat) : bool :=
  match find_in_groups p gs with
  | None => true
  | Some (_, j) => Nat.eqb j 0
  end.

Definition new_axis (gs : list (list nat)) (p : nat) : nat :=
  length (List.filter (kept gs) (seq 0 p)).

(** The full index of an [n]-leg array whose legs [ax] carry the entries of
    [c] and whose other legs carry, in order, the entries of [r]. *)
Definition place (n : nat) (ax : list nat) (c r : list nat) : list nat :=
  map (λ p, match find_pos p ax with
            | Some k => nth k c 0%nat
            | None => nth (length (free_axes p ax)) r 0%nat
            end) (seq 0 n).

Section Tensors.
Context {F : Type} {scalar : Scalar F}.

Fixpoint Fsum (n : nat) (f : nat → F) : F :=
  match n with
  | O => F0
  | S m => Fadd (Fsum m f) (f m)
  end.

(** The sum over all index tuples of the given dimensions. *)
Fixpoint Fsum_idx (dims : list nat) (f : list nat → F) : F :=
  match dims with
  | [] => f []
  | d :: ds => Fsum d (λ i, Fsum_idx ds (λ c, f (i :: c)))
  end.

Definition contract_data (a b : Array F) (ia ib : list nat) (idx : list nat) : F :=
  let fa := free_axes (rank a) ia in
  Fsum_idx (map leg_dim (pick (legs a) (Leg 0) ia))
    (λ c, Fmul (data a (place (rank a) ia c (take (length fa) idx)))
               (data b (place (rank b) ib c (drop (length fa) idx)))).

(** [npc.tensordot(a, b, axes=(ia, ib))] with the legs given by position:
    the result carries the free legs of [a], then those of [b]. *)
Definition tensordot_axes (a b : Array F) (ia ib : list nat) : result (Array F) :=
  if negb (forallb (λ p, Nat.ltb p (rank a)) ia && forallb (λ p, Nat.ltb p (rank b)) ib)
  then Raise (ValueError "axis out of range")
  else if negb (bool_decide (map leg_dim (pick (legs a) (Leg 0) ia)
                             = map leg_dim (pick (legs b) (Leg 0) ib)))
  then Raise (ValueError "incompatible legs")
  else
    let fa := free_axes (rank a) ia in
    let fb := free_axes (rank b) ib in
    Ok (mkArray (pick (legs a) (Leg 0) fa ++ pick (legs b) (Leg 0) fb)
                (pick (labels a) "" fa ++ pick (labels b) "" fb)
                (contract_data a b ia ib)).

(** [npc.tensordot(a, b, axes=(la, lb))] with the legs given by label. *)
Definition tensordot (a b : Array F) (la lb : list string) : result (Array F) :=
  ia ← get_leg_indices a la;
  ib ← get_leg_indices b lb;
  tensordot_axes a b ia ib.

(** [a.conj()]: entries and labels are conjugated. *)
Definition conj (a : Array F) : Array F :=
  mkArray (legs a) (map conj_label (labels a)) (λ idx, Fconj (data a idx)).

(** [a.ireplace_labels(olds, news)]: the legs are looked up first, then
    relabelled. *)
Definition ireplace_labels (a : Array F) (olds news : list string) : result (Array F) :=
  ks ← get_leg_indices a olds;
  Ok (mkArray (legs a)
        (fold_left (λ ls kn, <[kn.1 := kn.2]> ls) (combine ks news) (labels a))
        (data a)).

(** [a.set_leg_labels(lbls)]. *)
Definition set_leg_labels (a : Array F) (lbls : list string) : result (Array F) :=
  if Nat.eqb (length lbls) (rank a) then Ok (mkArray (legs a) lbls (data a))
  else Raise (ValueError "wrong number of labels").

(** [a /= r]. *)
Definition idiv_scalar (a : Array F) (r : F) : Array F :=
  mkArray (legs a) (labels a) (λ idx, Fdiv (data a idx) r).

(** [a.iscale_axis(s, lbl)]: entry [k] of leg [lbl] is scaled by [s[k]]. *)
Definition iscale_axis (a : Array F) (s : list F) (lbl : string) : result (Array F) :=
  p ← get_leg_index a lbl;
  if Nat.eqb (length s) (leg_dim (nth p (legs a) (Leg 0)))
  then Ok (mkArray (legs a) (labels a)
             (λ idx, Fmul (data a idx) (nth (nth p idx 0%nat) s F0)))
  else Raise (ValueError "incompatible leg").

(** [npc.eye_like(a, lbl)]: the identity over the leg [lbl] of [a],
    unlabelled. *)
Definition eye_like (a : Array F) (lbl : string) : result (Array F) :=
  p ← get_leg_index a lbl;
  let l := nth p (legs a) (Leg 0) in
  Ok (mkArray [l; l] [""; ""]
        (λ idx, if Nat.eqb (nth 0 idx 0%nat) (nth 1 idx 0%nat) then F1 else F0)).

(** [npc.outer(a, b)]. *)
Definition outer (a b : Array F) : Array F :=
  mkArray (legs a ++ legs b) (labels a ++ labels b)
    (λ idx, Fmul (data a (take (rank a) idx)) (data b (drop (rank a) idx))).

(** [npc.inner(a, b, axes=(la, lb))]: the full contraction, a scalar. *)
Definition inner (a b : Array F) (la lb : list string) : result F :=
  t ← tensordot a b la lb;
  if Nat.eqb (rank t) 0 then Ok (data t [])
  else Raise (ValueError "legs left uncontracted").

(** *** Combining and splitting legs *)

Fixpoint get_groups (a : Array F) (groups : list (list string)) : result (list (list nat)) :=
  match groups with
  | [] => Ok []
  | g :: r => ks ← get_leg_indices a g; kss ← get_groups a r; Ok (ks :: kss)
  end.

Definition make_pipe (a : Array F) (g : list nat) : LegCharge :=
  LegPipe (pick (legs a) (Leg 0) g).

Definition combine_data (a : Array F) (gs : list (list nat)) (idx : list nat) : F :=
  data a
    (map (λ p, match find_in_groups p gs with
               | None => nth (new_axis gs p) idx 0%nat
               | Some (g, j) =>
                   let ps := nth g gs [] in
                   nth j (unravel (map leg_dim (pick (legs a) (Leg 0) ps))
                            (nth (new_axis gs (nth 0 ps 0%nat)) idx 0%nat)) 0%nat
               end) (seq 0 (rank a))).

(** [a.combine_legs(groups, pipes=pipes)]: every group becomes one leg,
    placed where the first leg of the group was; a pipe that is handed in
    must be made of the legs it is to combine. *)
Definition combine_legs (a : Array F) (groups : list (list string))
    (pipes : option (list LegCharge)) : result (Array F) :=
  gs ← get_groups a groups;
  let made := map (make_pipe a) gs in
  if negb (match pipes with
           | None => true
           | Some ps => LegCharge_eqb (LegPipe ps) (LegPipe made)
           end)
  then Raise (ValueError "incompatible pipe")
  else
    Ok (mkArray
          (flat_map (λ p, match find_in_groups p gs with
                          | None => [nth p (legs a) (Leg 0)]
                          | Some (g, O) => [nth g made (Leg 0)]
                          | Some _ => []
                          end) (seq 0 (rank a)))
          (flat_map (λ p, match find_in_groups p gs with
                          | None => [nth p (labels a) ""]
                          | Some (g, O) =>
                              [combined_label (pick (labels a) "" (nth g gs []))]
                          | Some _ => []
                          end) (seq 0 (rank a)))
          (combine_data a gs)).

Definition sub_legs (l : LegCharge) : option (list LegCharge) :=
  match l with LegPipe subs => Some subs | Leg _ => None end.

Definition split_width (a : Array F) (axes : list nat) (p : nat) : nat :=
  if is_axis axes p
  then match nth p (legs a) (Leg 0) with LegPipe subs => length subs | Leg _ => 1%nat end
  else 1%nat.

Definition split_offset (a : Array F) (axes : list nat) (p : nat) : nat :=
  fold_right Nat.add 0%nat (map (split_width a axes) (seq 0 p)).

Definition split_data (a : Array F) (axes : list nat) (idx : list nat) : F :=
  data a
    (map (λ p, if is_axis axes p
               then match nth p (legs a) (Leg 0) with
                    | LegPipe subs =>
                        ravel (map leg_dim subs)
                          (take (length subs) (drop (split_offset a axes p) idx))
                    | Leg _ => nth (split_offset a axes p) idx 0%nat
                    end
               else nth (split_offset a axes p) idx 0%nat) (seq 0 (rank a))).

(** Is the leg at [p] a pipe whose label names as many legs as it
    combines? *)
Definition splittable (a : Array F) (p : nat) : bool :=
  match nth p (legs a) (Leg 0), split_leg_label (nth p (labels a) "") with
  | LegPipe subs, Some ls => Nat.eqb (length ls) (length subs)
  | _, _ => false
  end.

(** [a.split_legs(axes)]: every pipe among [axes] is replaced by the legs
    it combines, labelled as the combined label says. *)
Definition split_legs (a : Array F) (axes : list nat) : result (Array F) :=
  if negb (forallb (λ p, Nat.ltb p (rank a)) axes)
  then Raise (ValueError "axis out of range")
  else if negb (forallb (splittable a) axes)
  then Raise (ValueError "leg is not a pipe")
  else
    Ok (mkArray
          (flat_map (λ p, if is_axis axes p
                          then default [] (sub_legs (nth p (legs a) (Leg 0)))
                          else [nth p (legs a) (Leg 0)]) (seq 0 (rank a)))
          (flat_map (λ p, if is_axis axes p
                          then default [] (split_leg_label (nth p (labels a) ""))
                          else [nth p (labels a) ""]) (seq 0 (rank a)))
          (split_data a axes)).

(** [a.legs[k]]. *)
Definition get_leg (a : Array F) (k : Z) : result LegCharge :=
  p ← py_index (rank a) k; Ok (nth p (legs a) (Leg 0)).
End Tensors.

(** The integers as scalars (conjugation is the identity, division is
    integer division): enough to run the code on examples. *)
#[global] Instance Z_Scalar : Scalar Z := {|
  F0 := 0; F1 := 1; Fadd := Z.add; Fmul := Z.mul; Fopp := Z.opp;
  Fdiv := Z.div; Fconj := λ x, x |}.

(** ** The collaborators of the engine

    The state object, the truncated factorization, the plain SVD and the
    logarithm are not part of the sources; the engine is written over this
    interface.  A getter or a factorization may raise.  A setter replaces
    what the state stores at a position and is taken as total. *)

Class Collaborators (F : Type) := {
  (** the purification MPS, [self.psi] *)
  Psi : Type;
  (** [psi.get_theta(i, n=n, formL=formL)] *)
  get_theta : Psi → Z → Z → pyfloat → result (Array F);
  (** [psi.get_SL(i)] *)
  get_SL : Psi → Z → result (list F);
  (** [psi.set_SR(i, S)] *)
  set_SR : Psi → Z → list F → Psi;
  (** [psi.set_B(i, B, form=form)] *)
  set_B : Psi → Z → Array F → string → Psi;
  (** the values of [_trunc_err_bonds] and their [+] *)
  TruncationError : Type;
  trunc_add : TruncationError → TruncationError → TruncationError;
  (** [svd_theta(theta, params, inner_labels=...)]: the left factor, the
      kept weights, the right factor, the truncation error of this call
      and the renormalization scalar *)
  svd_theta : Array F → gmap string PyVal → list string →
              result (Array F * list F * Array F * TruncationError * F);
  (** [npc.svd(a)] *)
  svd : Array F → result (Array F * list F * Array F);
  (** [-np.log(x.real)] *)
  neg_log_real : F → pyfloat;
  (** [repr(x)] of a float *)
  repr_float : pyfloat → string
}.

(** Modelled from the spec: [get_parameter] (tools/params.py is not part of
    the sources) reads a key of the configuration mapping and falls back to
    the default when the key is absent. *)
Definition get_parameter (params : gmap string PyVal) (key : string) (default_ : PyVal) : PyVal :=
  default default_ (params !! key).

(** [v == s] for a string literal [s]. *)
Definition py_eq_str (v : PyVal) (s : string) : bool :=
  match v with
  | PyStr t => String.eqb t s
  | _ => false
  end.

Definition repr_int (z : Z) : string :=
  let digits := NilZero.string_of_int (Z.to_int z) in
  if (- 2 ^ 63 <=? z) && (z <? 2 ^ 63) then digits else digits ++ "L".

Section Engine.
Context {F : Type} {scalar : Scalar F} {collab : Collaborators F}.

(** [repr(v)]. *)
Definition py_repr (v : PyVal) : string :=
  match v with
  | PyNone => "None"
  | PyStr s => repr_str s
  | PyInt z => repr_int z
  | PyFloat x => repr_float x
  end.

(** The engine object: the attributes the methods below read or write. *)
Record Engine := mkEngine {
  psi : Psi;
  TEBD_params : gmap string PyVal;
  _U_param : gmap string PyVal;
  _trunc_err_bonds : list TruncationError;
  verbose : Z
}.

(** A method: from the object to the object after the call and the value
    returned or the exception raised. *)
Definition M (A : Type) : Type := Engine → Engine * result A.

#[global] Instance M_ret : MRet M := λ A a self, (self, Ok a).
#[global] Instance M_bind : MBind M :=
  λ A B f m self,
    match m self with
    | (self', Ok a) => f a self'
    | (self', Raise e) => (self', Raise e)
    end.

(** A computation that does not touch the object. *)
Definition lift {A} (r : result A) : M A := λ self, (self, r).
(** A fallible read of the object. *)
Definition reads {A} (f : Engine → result A) : M A := λ self, (self, f self).
(** A write to the object. *)
Definition modify (f : Engine → Engine) : M unit := λ self, (f self, Ok tt).

Definition with_psi (f : Psi → Psi) (self : Engine) : Engine :=
  mkEngine (f (psi self)) (TEBD_params self) (_U_param self)
           (_trunc_err_bonds self) (verbose self).

Definition with_trunc_err_bonds (f : list TruncationError → list TruncationError)
    (self : Engine) : Engine :=
  mkEngine (psi self) (TEBD_params self) (_U_param self)
           (f (_trunc_err_bonds self)) (verbose self).

(** The methods inherited from [tebd.Engine] and the diagnostics printed
    by [run_imaginary]; none of them is part of the sources. *)
Class Inherited := {
  (** [self.calc_U(order, delta_t, type_evo=type_evo)] *)
  calc_U : PyVal → PyVal → string → M unit;
  (** [self.update(N_steps=N)] *)
  update : Z → M TruncationError;
  (** the averages of bond energy and entanglement entropy, printed *)
  diagnostics : M unit
}.

(** *** [disentangle_backwards] *)
Definition disentangle_backwards (theta U_bond : Array F) : M (Array F * option (Array F)) :=
  type_evo ← reads (λ self, match _U_param self !! "type_evo" with
                            | Some v => Ok v
                            | None => Raise (KeyError "type_evo")
                            end);
  if py_eq_str type_evo "imag" then mret (theta, None)
  else
    U ← lift (ireplace_labels (conj U_bond)
                ["p0*"; "p1*"; "p0"; "p1"] ["q0"; "q1"; "q0*"; "q1*"]);
    theta ← lift (tensordot U theta ["q0*"; "q1*"] ["q0"; "q1"]);
    mret (theta, Some U).

(** *** [disentangle_renyi_iter] *)
Definition disentangle_renyi_iter (theta U : Array F) : M (pyfloat * Array F) :=
  U_theta ← lift (tensordot U theta ["q0*"; "q1*"] ["q0"; "q1"]);
  dS ← lift (tensordot U_theta (conj U_theta) ["p1"; "q1"; "vR"] ["p1*"; "q1*"; "vR*"]);
  dS ← lift (tensordot (conj U_theta) dS ["vL*"; "p0*"; "q0*"] ["vL"; "p0"; "q0"]);
  dS ← lift (tensordot theta dS ["vL"; "p0"; "vR"; "p1"] ["vL*"; "p0*"; "vR*"; "p1*"]);
  S2 ← lift (inner U dS ["q0"; "q1"; "q0*"; "q1*"] ["q0*"; "q1*"; "q0"; "q1"]);
  dS ← lift (combine_legs dS [["q0"; "q1"]; ["q0*"; "q1*"]] None);
  '(W, Y, VH) ← lift (svd dS);
  WVH ← lift (tensordot_axes W VH [1%nat] [0%nat]);
  new_U ← lift (split_legs (conj WVH) [0%nat; 1%nat]);
  mret (neg_log_real S2, new_U).

(** The local variables of the loop of [disentangle_renyi]; [S] and [i]
    are unbound until the body has run once. *)
Record RenyiVars := mkRenyiVars {
  var_U : Array F;
  var_Sold : pyfloat;
  var_S : option pyfloat;
  var_i : option nat
}.

(** The loop [for i in xrange(max_iter)], with [n] iterations left and
    [i] the value the loop variable takes next. *)
Fixpoint renyi_loop (theta : Array F) (eps : PyVal) (n i : nat) (v : RenyiVars)
    : M RenyiVars :=
  match n with
  | O => mret v
  | S n' =>
      '(S', U) ← disentangle_renyi_iter theta (var_U v);
      if py_float_lt (fl_abs (fl_sub (var_Sold v) S')) eps
      then mret (mkRenyiVars U (var_Sold v) (Some S') (Some i))
      else renyi_loop theta eps n' (S i) (mkRenyiVars U S' (Some (var_Sold v)) (Some i))
  end.

(** *** [disentangle_renyi] *)
Definition disentangle_renyi (theta : Array F) : M (Array F * option (Array F)) :=
  max_iter ← reads (λ self, Ok (get_parameter (TEBD_params self) "disent_max_iter" (PyInt 20)));
  eps ← reads (λ self, Ok (get_parameter (TEBD_params self) "disent_eps"
                             (PyFloat (round_double (1 # 10000000000)))));
  e0 ← lift (e ← eye_like theta "q0"; set_leg_labels e ["q0"; "q0*"]);
  e1 ← lift (e ← eye_like theta "q1"; set_leg_labels e ["q1"; "q1*"]);
  let U := outer e0 e1 in
  n ← lift (py_xrange max_iter);
  v ← renyi_loop theta eps n 0 (mkRenyiVars U PInf None None);
  theta ← lift (tensordot (var_U v) theta ["q0*"; "q1*"] ["q0"; "q1"]);
  verb ← reads (λ self, Ok (verbose self));
  _ ← (if py_ge verb 10
       then match var_i v, var_S v with
            | None, _ => lift (Raise (UnboundLocalError "i"))
            | Some _, None => lift (Raise (UnboundLocalError "S"))
            | Some _, Some _ => mret tt
            end
       else mret tt);
  mret (theta, Some (var_U v)).

(** *** [disentangle] *)
Definition disentangle (theta : Array F) (i : Z) (U_bond : Array F)
    : M (Array F * option (Array F)) :=
  d ← reads (λ self, Ok (get_parameter (TEBD_params self) "disentangle" PyNone));
  match d with
  | PyNone => mret (theta, None)
  | _ =>
      if py_eq_str d "backwards" then disentangle_backwards theta U_bond
      else if py_eq_str d "renyi" then disentangle_renyi theta
      else lift (Raise (ValueError ("Invalid 'disentangle': got " ++ py_repr d)))
  end.

(** *** [update_bond] *)
Definition update_bond (i : Z) (U_bond : Array F) : M TruncationError :=
  let i0 := i - 1 in
  let i1 := i in
  theta ← reads (λ self, get_theta (psi self) i0 2 (Fin 1));
  theta ← lift (tensordot U_bond theta ["p0*"; "p1*"] ["p0"; "p1"]);
  '(theta, U_disent) ← disentangle theta i U_bond;
  theta ← lift (combine_legs theta [["vL"; "p0"; "q0"]; ["vR"; "p1"; "q1"]] None);
  '(U, S', V, trunc_err, renormalize) ←
    reads (λ self, svd_theta theta (TEBD_params self) ["vR"; "vL"]);
  B_R ← lift (V' ← split_legs V [1%nat]; ireplace_labels V' ["p1"; "q1"] ["p"; "q"]);
  C ← reads (λ self, get_theta (psi self) i0 2 (Fin 0));
  C ← lift (tensordot U_bond C ["p0*"; "p1*"] ["p0"; "p1"]);
  C ← match U_disent with
      | Some U_disent => lift (tensordot U_disent C ["q0*"; "q1*"] ["q0"; "q1"])
      | None => mret C
      end;
  pipe ← lift (get_leg theta 1);
  C ← lift (combine_legs C [["vR"; "p1"; "q1"]] (Some [pipe]));
  B_L ← lift (tensordot C (conj V) ["(vR.p1.q1)"] ["(vR*.p1*.q1*)"]);
  B_L ← lift (ireplace_labels B_L ["vL*"; "p0"; "q0"] ["vR"; "p"; "q"]);
  let B_L := idiv_scalar B_L renormalize in
  _ ← modify (with_psi (λ psi, set_SR psi i0 S'));
  _ ← modify (with_psi (λ psi, set_B psi i0 B_L "B"));
  _ ← modify (with_psi (λ psi, set_B psi i1 B_R "B"));
  '(k, old) ← reads (λ self, py_getitem (_trunc_err_bonds self) i);
  _ ← modify (with_trunc_err_bonds (λ errs, <[k := trunc_add old trunc_err]> errs));
  mret trunc_err.

(** The two-site wavefunction [update_bond] hands to the factorization
    (its first four statements), with the disentangler. *)
Definition two_site_wavefunction (i : Z) (U_bond : Array F)
    : M (Array F * option (Array F)) :=
  theta ← reads (λ self, get_theta (psi self) (i - 1) 2 (Fin 1));
  theta ← lift (tensordot U_bond theta ["p0*"; "p1*"] ["p0"; "p1"]);
  '(theta, U_disent) ← disentangle theta i U_bond;
  theta ← lift (combine_legs theta [["vL"; "p0"; "q0"]; ["vR"; "p1"; "q1"]] None);
  mret (theta, U_disent).

(** A run of calls of [update_bond] that all return, one after the other,
    with nothing else touching the object in between; the log holds, call
    by call, the bond index and the error the call returned. *)
Inductive successive_updates : Engine → list (Z * TruncationError) → Engine → Prop :=
| updates_none self : successive_updates self [] self
| updates_more self self' self'' i U_bond err log :
    update_bond i U_bond self = (self', Ok err) →
    successive_updates self' log self'' →
    successive_updates self ((i, err) :: log) self''.

(** Does the index [i] select the position [k] of a list of [len]
    entries? *)
Definition selects (len : nat) (i : Z) (k : nat) : bool :=
  match py_index len i with
  | Ok k' => Nat.eqb k' k
  | Raise _ => false
  end.

(** What the calls of a log make of the accumulator at position [k], from
    the value [old]: every call on that position adds its error to what
    the accumulator held, in the order of the calls. *)
Fixpoint accumulated (len k : nat) (log : list (Z * TruncationError))
    (old : TruncationError) : TruncationError :=
  match log with
  | [] => old
  | (i, err) :: rest =>
      accumulated len k rest (if selects len i k then trunc_add old err else old)
  end.

(** *** [run_imaginary] *)
Definition N_steps (beta delta_t : PyVal) : result Z :=
  q ← py_truediv beta delta_t;
  py_int (fl_add q (Fin (1 # 2))).

Definition run_imaginary {inherited : Inherited} (beta : PyVal) : M unit :=
  delta_t ← reads (λ self, Ok (get_parameter (TEBD_params self) "dt" (PyFloat (round_double (1 # 10)))));
  TrotterOrder ← reads (λ self, Ok (get_parameter (TEBD_params self) "order" (PyInt 2)));
  _ ← calc_U TrotterOrder delta_t "imag";
  N ← lift (N_steps beta delta_t);
  _ ← update N;
  verb ← reads (λ self, Ok (verbose self));
  if py_ge verb 1 then diagnostics else mret tt.
End Engine.

(** ** A chain with one-dimensional legs

    A periodic chain whose legs all have dimension one: every site tensor
    and every bond weight is a single integer, and the factorization of a
    one-by-one matrix is exact.  It serves to run the methods on concrete
    inputs. *)

Inductive ChainEvent :=
| EvCalcU (order delta_t : PyVal) (type_evo : string)
| EvUpdate (N : Z).

Record Chain := mkChain {
  chain_B : list Z;
  chain_S : list Z;
  chain_log : list ChainEvent
}.

Definition chain_site (c : Chain) (i : Z) : nat :=
  Z.to_nat (i mod Z.of_nat (length (chain_B c))).

Definition scalar_array (ls : list LegCharge) (lbls : list string) (x : Z) : Array Z :=
  mkArray ls lbls (λ _, x).

Definition chain_get_theta (c : Chain) (i n : Z) (formL : pyfloat) : result (Array Z) :=
  let sL := match formL with
            | Fin q => if Qeq_bool q 0 then 1 else nth (chain_site c i) (chain_S c) 1
            | _ => 1
            end in
  Ok (scalar_array [Leg 1; Leg 1; Leg 1; Leg 1; Leg 1; Leg 1]
        ["vL"; "vR"; "p0"; "p1"; "q0"; "q1"]
        (sL * nth (chain_site c i) (chain_B c) 0 * nth (chain_site c (i + 1)) (chain_B c) 0)).

Definition chain_set_SR (c : Chain) (i : Z) (S' : list Z) : Chain :=
  mkChain (chain_B c) (<[chain_site c (i + 1) := nth 0 S' 0]> (chain_S c)) (chain_log c).

Definition chain_set_B (c : Chain) (i : Z) (B : Array Z) (form : string) : Chain :=
  mkChain (<[chain_site c i := data B []]> (chain_B c)) (chain_S c) (chain_log c).

(** The factorization of a one-by-one matrix [t]: [t = sgn t * |t| * 1],
    nothing is discarded and the kept weight is renormalized to one. *)
Definition chain_svd_theta (theta : Array Z) (params : gmap string PyVal)
    (inner_labels : list string) : result (Array Z * list Z * Array Z * Z * Z) :=
  let t := data theta [0%nat; 0%nat] in
  Ok (scalar_array [nth 0 (legs theta) (Leg 0); Leg 1]
        [nth 0 (labels theta) ""; nth 0 inner_labels ""] (if t <? 0 then -1 else 1),
      [1],
      scalar_array [Leg 1; nth 1 (legs theta) (Leg 0)]
        [nth 1 inner_labels ""; nth 1 (labels theta) ""] 1,
      0,
      Z.abs t).

Definition chain_svd (a : Array Z) : result (Array Z * list Z * Array Z) :=
  let t := data a [0%nat; 0%nat] in
  Ok (scalar_array [nth 0 (legs a) (Leg 0); Leg 1] [nth 0 (labels a) ""; ""]
        (if t <? 0 then -1 else 1),
      [Z.abs t],
      scalar_array [Leg 1; nth 1 (legs a) (Leg 0)] [""; nth 1 (labels a) ""] 1).

#[global] Instance Chain_Collaborators : Collaborators Z := {|
  Psi := Chain;
  get_theta := chain_get_theta;
  get_SL := λ c i, Ok [nth (chain_site c i) (chain_S c) 1];
  set_SR := chain_set_SR;
  set_B := chain_set_B;
  TruncationError := Z;
  trunc_add := Z.add;
  svd_theta := chain_svd_theta;
  svd := chain_svd;
  neg_log_real := λ x, Fin (inject_Z (- x));
  repr_float := λ _, "float"
|}.

Definition chain_log_event (ev : ChainEvent) : M (collab := Chain_Collaborators) unit :=
  modify (with_psi (collab := Chain_Collaborators)
            (λ c, mkChain (chain_B c) (chain_S c) (chain_log c ++ [ev]))).

#[global] Instance Chain_Inherited : Inherited (collab := Chain_Collaborators) := {|
  calc_U := λ order delta_t type_evo, chain_log_event (EvCalcU order delta_t type_evo);
  update := λ N, _ ← chain_log_event (EvUpdate N); mret 0;
  diagnostics := mret tt
|}.

(** The identity gate on two one-dimensional physical legs. *)
Definition chain_gate : Array Z :=
  scalar_array [Leg 1; Leg 1; Leg 1; Leg 1] ["p0"; "p1"; "p0*"; "p1*"] 1.

(** A gate whose legs carry the wrong labels. *)
Definition mislabelled_gate : Array Z :=
  scalar_array [Leg 1; Leg 1; Leg 1; Leg 1] ["a"; "b"; "a*"; "b*"] 1.

(** The two-site wavefunction of a chain, all entries one. *)
Definition chain_theta : Array Z :=
  scalar_array [Leg 1; Leg 1; Leg 1; Leg 1; Leg 1; Leg 1]
    ["vL"; "vR"; "p0"; "p1"; "q0"; "q1"] 1.

(** An engine on a chain of two sites, with one accumulator per bond
    (three of them). *)
Definition chain_engine (params : gmap string PyVal) (verb : Z)
    : Engine (collab := Chain_Collaborators) :=
  mkEngine (collab := Chain_Collaborators) (mkChain [2; 3] [1; 1; 1] []) params ∅ [5; 7; 9] verb.

(** ** Tensors compared by label

    Two arrays are the same tensor when they have the same labelled legs,
    in whatever order, and the same entry at every index in range, the
    index being given by label. *)

Definition entry {F} (a : Array F) (env : string → nat) : F :=
  data a (map env (labels a)).

Definition in_range {F} (a : Array F) (env : string → nat) : Prop :=
  Forall2 (λ l leg, (env l < leg_dim leg)%nat) (labels a) (legs a).

Definition same_tensor {F} (a b : Array F) : Prop :=
  zip (labels a) (legs a) ≡ₚ zip (labels b) (legs b) ∧
  ∀ env, in_range a env → entry a env = entry b env.

(** A two-site wavefunction, with the legs in the order [get_theta] hands
    them out, and a bond gate, with the legs [update_bond] expects. *)
Definition wavefunction {F} (dL dR dp0 dp1 dq0 dq1 : nat) (f : list nat → F) : Array F :=
  mkArray [Leg dL; Leg dR; Leg dp0; Leg dp1; Leg dq0; Leg dq1]
          ["vL"; "vR"; "p0"; "p1"; "q0"; "q1"] f.

Definition bond_gate {F} (d0 d1 : nat) (u : list nat → F) : Array F :=
  mkArray [Leg d0; Leg d1; Leg d0; Leg d1] ["p0"; "p1"; "p0*"; "p1*"] u.

Definition delta {F} {scalar : Scalar F} (i j : nat) : F :=
  if Nat.eqb i j then F1 else F0.

(** The entries [lam(vL, vR) * delta(p0, q0) * delta(p1, q1)] of a
    wavefunction whose auxiliary legs are maximally entangled with the
    physical ones. *)
Definition maximally_entangled {F} {scalar : Scalar F} (lam : nat → nat → F)
    : list nat → F :=
  λ idx, Fmul (lam (nth 0 idx 0%nat) (nth 1 idx 0%nat))
              (Fmul (delta (nth 2 idx 0%nat) (nth 4 idx 0%nat))
                    (delta (nth 3 idx 0%nat) (nth 5 idx 0%nat))).

(** A gate [u] is unitary: its rows are orthonormal. *)
Definition unitary_gate {F} {scalar : Scalar F} (d0 d1 : nat) (u : list nat → F) : Prop :=
  ∀ a b a' b', (a < d0)%nat → (b < d1)%nat → (a' < d0)%nat → (b' < d1)%nat →
    Fsum d0 (λ c, Fsum d1 (λ d, Fmul (u [a; b; c; d]) (Fconj (u [a'; b'; c; d]))))
    = Fmul (delta a a') (delta b b').

(** The scalars form a commutative ring. *)
Definition scalar_ring (F : Type) {scalar : Scalar F} : Prop :=
  ring_theory F0 F1 Fadd Fmul (λ x y, Fadd x (Fopp y)) Fopp eq.

(** The gate that swaps two sites of dimension two. *)
Definition swap_gate : list nat → Z :=
  λ idx, if Nat.eqb (nth 0 idx 0%nat) (nth 3 idx 0%nat)
            && Nat.eqb (nth 1 idx 0%nat) (nth 2 idx 0%nat) then 1 else 0.

(** ** The left tensor of a bond update, two ways *)

Section LeftTensor.
Context {F : Type} {scalar : Scalar F}.

(** Lines 112 to 117 of [update_bond]: the wavefunction without the left
    weights, [C], is combined on the right with the pipe of [theta],
    contracted with the conjugate of the right factor [V], relabelled and
    divided by the renormalization. *)
Definition recompose_left (theta V C : Array F) (renormalize : F) : result (Array F) :=
  pipe ← get_leg theta 1;
  C ← combine_legs C [["vR"; "p1"; "q1"]] (Some [pipe]);
  B_L ← tensordot C (conj V) ["(vR.p1.q1)"] ["(vR*.p1*.q1*)"];
  B_L ← ireplace_labels B_L ["vL*"; "p0"; "q0"] ["vR"; "p"; "q"];
  Ok (idiv_scalar B_L renormalize).

(** Lines 109 to 117 of [update_bond]: the left tensor it stores, from the
    gate, the disentangler, the combined wavefunction [theta], the right
    factor [V], the wavefunction without the left weights [C] and the
    renormalization. *)
Definition stable_left_tensor (U_bond : Array F) (U_disent : option (Array F))
    (theta V C : Array F) (renormalize : F) : result (Array F) :=
  C ← tensordot U_bond C ["p0*"; "p1*"] ["p0"; "p1"];
  C ← match U_disent with
      | Some U_disent => tensordot U_disent C ["q0*"; "q1*"] ["q0"; "q1"]
      | None => Ok C
      end;
  recompose_left theta V C renormalize.

(** The recipe the comment of [update_bond] and the spec call the naive
    one, [B_L = SL**(-1) U S]: scale the left factor by the new weights,
    split its left leg, divide by the old weights of the left bond. *)
Definition naive_left_tensor (U : Array F) (S' SL : list F) : result (Array F) :=
  B_L ← iscale_axis U S' "vR";
  B_L ← split_legs B_L [0%nat];
  B_L ← iscale_axis B_L (map (λ s, Fdiv F1 s) SL) "vL";
  ireplace_labels B_L ["p0"; "q0"] ["p"; "q"].

(** A disentangler for auxiliary legs of dimensions [dq0] and [dq1]: it has
    legs [q0*] and [q1*] of these dimensions and, besides them, exactly
    the legs [q0] and [q1], in this order. *)
Definition is_disentangler (dq0 dq1 : nat) (U : Array F) : Prop :=
  ∃ i j,
    get_leg_indices U ["q0*"; "q1*"] = Ok [i; j] ∧
    (i < rank U)%nat ∧ (j < rank U)%nat ∧
    map leg_dim (pick (legs U) (Leg 0) [i; j]) = [dq0; dq1] ∧
    pick (labels U) "" (free_axes (rank U) [i; j]) = ["q0"; "q1"] ∧
    pick (legs U) (Leg 0) (free_axes (rank U) [i; j]) = [Leg dq0; Leg dq1].
End LeftTensor.

(** The scalars form a field: besides the ring laws, [x / y] is [x] times
    the inverse [1 / y], and a non-zero [y] times its inverse is one. *)
Definition scalar_field (F : Type) {scalar : Scalar F} : Prop :=
  scalar_ring F ∧
  (∀ x y, Fdiv x y = Fmul x (Fdiv F1 y)) ∧
  (∀ y, y ≠ F0 → Fmul (Fdiv F1 y) y = F1).

(** The rationals as scalars: a field, with the identity as conjugation. *)
#[global] Instance Qc_Scalar : Scalar Qc := {|
  F0 := 0%Qc; F1 := 1%Qc; Fadd := Qcplus; Fmul := Qcmult; Fopp := Qcopp;
  Fdiv := Qcdiv; Fconj := λ x, x |}.

(** A wavefunction whose left bond has the weights [1, 2]: its entries
    with and without them. *)
Definition two_weights : list Qc := [Q2Qc 1; Q2Qc 2].
Definition unweighted : list nat → Qc := λ idx, if Nat.eqb (nth 0 idx 0%nat) 0 then Q2Qc 3 else Q2Qc 4.
Definition weighted : list nat → Qc := λ idx, if Nat.eqb (nth 0 idx 0%nat) 0 then Q2Qc 3 else Q2Qc 8.
Definition ones : list nat → Qc := λ _, 1%Qc.

(** An engine in real-time evolution, as [calc_U] leaves [_U_param]. *)
Definition real_time_engine : Engine (collab := Chain_Collaborators) :=
  mkEngine (collab := Chain_Collaborators) (mkChain [2; 3] [1; 1; 1] []) ∅
    {["type_evo" := PyStr "real"]} [5; 7; 9] 0.

(** [round(x)] as the spec words it: the integer nearest to [x], a half
    rounded away from zero (what Python 2's [round] returns). *)
Definition py_round (x : Q) : Z :=
  if Qle_bool 0 x then Qfloor (x + (1 # 2)) else Qceiling (x - (1 # 2)).

(** ** Contracts of the collaborators and further test objects *)

(** Conjugation respects zero, sums and products. *)
Definition conj_morphism (F : Type) {scalar : Scalar F} : Prop :=
  Fconj F0 = F0 ∧
  (∀ x y, Fconj (Fadd x y) = Fadd (Fconj x) (Fconj y)) ∧
  (∀ x y, Fconj (Fmul x y) = Fmul (Fconj x) (Fconj y)).

(** The entry of a disentangler [U] whose legs [q0*] and [q1*] sit at the
    positions [i] and [j]: outgoing indices [x] and [y], incoming indices
    [c] and [d]. *)
Definition disentangler_entry {F} (U : Array F) (i j : nat) (x y c d : nat) : F :=
  data U (place (rank U) [i; j] [c; d] [x; y]).

(** A disentangler that is an isometry from the legs [q0*], [q1*] to the
    legs [q0], [q1]: its columns are orthonormal. *)
Definition unitary_disentangler {F} {scalar : Scalar F} (dq0 dq1 : nat) (U : Array F) : Prop :=
  ∃ i j,
    get_leg_indices U ["q0*"; "q1*"] = Ok [i; j] ∧
    (i < rank U)%nat ∧ (j < rank U)%nat ∧
    map leg_dim (pick (legs U) (Leg 0) [i; j]) = [dq0; dq1] ∧
    pick (labels U) "" (free_axes (rank U) [i; j]) = ["q0"; "q1"] ∧
    pick (legs U) (Leg 0) (free_axes (rank U) [i; j]) = [Leg dq0; Leg dq1] ∧
    ∀ c d c' d', (c < dq0)%nat → (d < dq1)%nat → (c' < dq0)%nat → (d' < dq1)%nat →
      Fsum dq0 (λ x, Fsum dq1 (λ y,
        Fmul (disentangler_entry U i j x y c d) (Fconj (disentangler_entry U i j x y c' d'))))
      = Fmul (delta c c') (delta d d').

(** The two leg orders the disentangler of the Renyi optimizer takes: the
    one it starts from, [outer] of two identities, and the one an
    iteration hands back, out of [split_legs]. *)
Definition renyi_layout {F} (dq0 dq1 : nat) (U : Array F) : Prop :=
  (legs U = [Leg dq0; Leg dq0; Leg dq1; Leg dq1] ∧ labels U = ["q0"; "q0*"; "q1"; "q1*"]) ∨
  (legs U = [Leg dq0; Leg dq1; Leg dq0; Leg dq1] ∧ labels U = ["q0*"; "q1*"; "q0"; "q1"]).

(** What the engine relies on from [npc.svd]: a matrix is factorized into
    a left factor that keeps its first leg and label and a right factor
    that keeps its second, joined by a new unlabelled leg. *)
Definition svd_keeps_legs {F} (svd : Array F → result (Array F * list F * Array F)) : Prop :=
  ∀ a l0 l1 lb0 lb1, legs a = [l0; l1] → labels a = [lb0; lb1] →
    ∃ W Y VH k, svd a = Ok (W, Y, VH) ∧
      legs W = [l0; Leg k] ∧ labels W = [lb0; ""] ∧
      legs VH = [Leg k; l1] ∧ labels VH = [""; lb1].

(** What the engine relies on from [svd_theta]: the same, with the new
    inner leg labelled as [inner_labels] asks. *)
Definition svd_theta_keeps_legs {F TE : Type}
    (svd_theta : Array F → gmap string PyVal → list string →
                 result (Array F * list F * Array F * TE * F)) : Prop :=
  ∀ a params l0 l1 lb0 lb1 in0 in1, legs a = [l0; l1] → labels a = [lb0; lb1] →
    ∃ U S' V err renormalize k,
      svd_theta a params [in0; in1] = Ok (U, S', V, err, renormalize) ∧
      legs U = [l0; Leg k] ∧ labels U = [lb0; in0] ∧
      legs V = [Leg k; l1] ∧ labels V = [in1; lb1].

Section MethodKinds.
Context {F : Type} {scalar : Scalar F} {collab : Collaborators F}.

(** A method whose outcome does not depend on the object and that leaves
    the object alone. *)
Definition pure_method {A} (m : M A) : Prop := ∃ r, ∀ self, m self = (self, r).
End MethodKinds.

(** Engines on the chain with the backwards disentangler switched on: in
    real time, in imaginary time, and before [calc_U] has run. *)
Definition backwards_engine (type_evo : option string)
    : Engine (collab := Chain_Collaborators) :=
  mkEngine (collab := Chain_Collaborators) (mkChain [2; 3] [1; 1; 1] [])
    {["disentangle" := PyStr "backwards"]}
    (match type_evo with Some t => {["type_evo" := PyStr t]} | None => ∅ end)
    [5; 7; 9] 0.

(** A state object that is nothing but one two-site wavefunction, handed
    out as it is and never changed: enough to run the first half of
    [update_bond] on a wavefunction with legs of any dimension. *)
Definition Pair_Collaborators : Collaborators Z := {|
  Psi := Array Z;
  get_theta := λ psi i n formL, Ok psi;
  get_SL := λ psi i, Ok [];
  set_SR := λ psi i S', psi;
  set_B := λ psi i B form, psi;
  TruncationError := Z;
  trunc_add := Z.add;
  svd_theta := chain_svd_theta;
  svd := chain_svd;
  neg_log_real := λ x, Fin (inject_Z (- x));
  repr_float := λ _, "float"
|}.

(** The infinite-temperature state of two sites of dimension two, in real
    time with the backwards disentangler. *)
Definition infinite_temperature_engine : Engine (collab := Pair_Collaborators) :=
  mkEngine (collab := Pair_Collaborators)
    (wavefunction 1 1 2 2 2 2 (maximally_entangled (λ _ _, 1)))
    {["disentangle" := PyStr "backwards"]} {["type_evo" := PyStr "real"]} [0] 0.

(** A two-site wavefunction after the gate, with the legs as [tensordot]
    leaves them, on one-dimensional legs and on sites of dimension two. *)
Definition gated_theta (d : nat) (g : list nat → Z) : Array Z :=
  mkArray [Leg d; Leg d; Leg 1; Leg 1; Leg d; Leg d]
          ["p0"; "p1"; "vL"; "vR"; "q0"; "q1"] g.

(** The chain again, with a factorization that discards something: it
    reports a truncation error of 2 at every call. *)
Definition Lossy_Collaborators : Collaborators Z := {|
  Psi := Chain;
  get_theta := chain_get_theta;
  get_SL := λ c i, Ok [nth (chain_site c i) (chain_S c) 1];
  set_SR := chain_set_SR;
  set_B := chain_set_B;
  TruncationError := Z;
  trunc_add := Z.add;
  svd_theta := λ theta params inner_labels,
    '(U, S', V, _, renormalize) ← chain_svd_theta theta params inner_labels;
    Ok (U, S', V, 2, renormalize);
  svd := chain_svd;
  neg_log_real := λ x, Fin (inject_Z (- x));
  repr_float := λ _, "float"
|}.

Definition lossy_engine : Engine (collab := Lossy_Collaborators) :=
  mkEngine (collab := Lossy_Collaborators) (mkChain [2; 3] [1; 1; 1] []) ∅ ∅ [5; 7; 9] 0.

Create HintDb preserve.

(** * Properties *)

(** ** The method monad *)

Section MonadFacts.
Context {F : Type} {scalar : Scalar F} {collab : Collaborators F}.

(** A method that leaves the object as it found it, whatever it returns
    or raises. *)
Definition preserves {A} (m : M A) : Prop :=
  ∀ self self' r, m self = (self', r) → self' = self.

Lemma preserves_ret {A} (a : A) : preserves (mret a).
Proof. intros self self' r E. inversion E; reflexivity. Qed.

Lemma preserves_lift {A} (x : result A) : preserves (lift x).
Proof. intros self self' r E. inversion E; reflexivity. Qed.

Lemma preserves_reads {A} (f : Engine → result A) : preserves (reads f).
Proof. intros self self' r E. inversion E; reflexivity. Qed.

Lemma preserves_bind {A B} (m : M A) (f : A → M B) :
  preserves m → (∀ a, preserves (f a)) → preserves (m ≫= f).
Proof.
  intros Hm Hf self self' r E. unfold mbind, M_bind in E.
  destruct (m self) as [s1 [a|e]] eqn:Em.
  - apply Hm in Em. subst s1. eapply Hf; eassumption.
  - apply Hm in Em. inversion E; subst. reflexivity.
Qed.

(** Running a bind: either the first method raised, or it returned and
    the rest ran from the object it left. *)
Lemma bind_run {A B} (m : M A) (f : A → M B) self self' r :
  (m ≫= f) self = (self', r) →
  (∃ e, m self = (self', Raise e) ∧ r = Raise e) ∨
  (∃ s1 a, m self = (s1, Ok a) ∧ f a s1 = (self', r)).
Proof.
  unfold mbind, M_bind. destruct (m self) as [s1 [a|e]] eqn:Em; intros E.
  - right. eauto.
  - left. inversion E; subst. eauto.
Qed.

Lemma bind_preserved_run {A B} (m : M A) (f : A → M B) self self' r :
  preserves m →
  (m ≫= f) self = (self', r) →
  (self' = self ∧ ∃ e, r = Raise e) ∨ (∃ a, m self = (self, Ok a) ∧ f a self = (self', r)).
Proof.
  intros Hm E. apply bind_run in E as [(e & Em & ->)|(s1 & a & Em & Ef)].
  - left. split; [eapply Hm; eassumption | eauto].
  - right. pose proof (Hm _ _ _ Em); subst s1. eauto.
Qed.
End MonadFacts.

#[global] Hint Resolve preserves_ret preserves_lift preserves_reads : preserve.

(** Peels the binds of a method that only reads. *)
Ltac preserve_tac :=
  repeat first
    [ apply preserves_ret | apply preserves_lift | apply preserves_reads
    | apply preserves_bind; [ | intros ? ]
    | match goal with
      | |- preserves (match ?x with _ => _ end) => destruct x
      | |- preserves (if ?b then _ else _) => destruct b
      | |- preserves (let '(_, _) := ?x in _) => destruct x
      end ].

(** ** The disentangler dispatch *)

Section DisentangleFacts.
Context {F : Type} {scalar : Scalar F} {collab : Collaborators F}.

Lemma disentangle_backwards_preserves theta U_bond :
  preserves (disentangle_backwards theta U_bond).
Proof. unfold disentangle_backwards. preserve_tac. Qed.

Lemma disentangle_renyi_iter_preserves theta U :
  preserves (disentangle_renyi_iter theta U).
Proof. unfold disentangle_renyi_iter. preserve_tac. Qed.

Lemma renyi_loop_preserves theta eps n : ∀ i v, preserves (renyi_loop theta eps n i v).
Proof.
  induction n as [|n IH]; intros i v; simpl.
  - apply preserves_ret.
  - apply preserves_bind; [apply disentangle_renyi_iter_preserves|].
    intros [S' U]. destruct (py_float_lt _ _); [apply preserves_ret | apply IH].
Qed.

Lemma disentangle_renyi_preserves theta : preserves (disentangle_renyi theta).
Proof.
  unfold disentangle_renyi.
  repeat (apply preserves_bind; [first [apply preserves_reads | apply preserves_lift
                                       | apply renyi_loop_preserves] | intros ?]).
  apply preserves_bind; [|intros ?; apply preserves_ret].
  destruct (py_ge _ _); [|apply preserves_ret].
  destruct (var_i _); [destruct (var_S _)|]; auto with preserve.
Qed.

Lemma disentangle_preserves theta i U_bond : preserves (disentangle theta i U_bond).
Proof.
  unfold disentangle. apply preserves_bind; [apply preserves_reads|]. intros d.
  destruct d; try apply preserves_ret;
    repeat match goal with
           | |- preserves (if ?b then _ else _) => destruct b
           end;
    auto using disentangle_backwards_preserves, disentangle_renyi_preserves, preserves_lift.
Qed.
End DisentangleFacts.

(** ** Python lists *)

Lemma py_index_lt len i k : py_index len i = Ok k → (k < len)%nat.
Proof.
  unfold py_index.
  destruct ((0 <=? i) && (i <? Z.of_nat len)) eqn:E1.
  - intros [= <-]. apply andb_true_iff in E1 as [? ?]. lia.
  - destruct ((- Z.of_nat len <=? i) && (i <? 0)) eqn:E2; [|discriminate].
    intros [= <-]. apply andb_true_iff in E2 as [? ?]. lia.
Qed.

Lemma py_getitem_Ok {A} (l : list A) i :
  is_Ok (py_index (length l) i) = true →
  ∃ k x, py_getitem l i = Ok (k, x) ∧ l !! k = Some x.
Proof.
  unfold py_getitem. destruct (py_index (length l) i) as [k|] eqn:E; [|discriminate].
  intros _. apply py_index_lt in E. apply lookup_lt_is_Some_2 in E as [x Hx].
  exists k, x. simpl. rewrite Hx. auto.
Qed.

Lemma py_getitem_inv {A} (l : list A) i k x :
  py_getitem l i = Ok (k, x) → py_index (length l) i = Ok k ∧ l !! k = Some x.
Proof.
  unfold py_getitem. destruct (py_index (length l) i) as [k'|]; [|discriminate].
  simpl. destruct (l !! k') eqn:E; [|discriminate]. intros [= <- <-]. auto.
Qed.

(** ** The bond update *)

Section UpdateBondFacts.
Context {F : Type} {scalar : Scalar F} {collab : Collaborators F}.

Local Tactic Notation "peel" hyp(E) "as" simple_intropattern(a) :=
  apply bind_preserved_run in E;
  [ destruct E as [[-> _]|(a & _ & E)]; [reflexivity|]
  | first [ apply preserves_reads | apply preserves_lift | apply disentangle_preserves
          | apply preserves_ret ] ].

(** C1, as the code has it: a call of [update_bond] that raises leaves the
    whole engine object (and so both site tensors and the bond weight)
    exactly as it was, provided the bond index is one the list of
    truncation-error accumulators accepts.  Everything that can raise
    before the first write has run by then; the code has no rollback for
    the accumulator lookup that follows the writes. *)
Theorem update_bond_raise_keeps_state i U_bond self self' e :
  is_Ok (py_index (length (_trunc_err_bonds self)) i) = true →
  update_bond i U_bond self = (self', Raise e) →
  self' = self.
Proof.
  intros Hi E. unfold update_bond in E.
  peel E as theta0. peel E as theta1. peel E as [theta2 U_disent].
  peel E as theta. peel E as [[[[U S'] V] trunc_err] renormalize].
  peel E as B_R. peel E as C0. peel E as C1.
  apply bind_preserved_run in E;
    [destruct E as [[-> _]|(C2 & _ & E)]; [reflexivity|]
    | destruct U_disent; [apply preserves_lift | apply preserves_ret]].
  peel E as pipe. peel E as C3. peel E as B_L0. peel E as B_L1.
  destruct (py_getitem_Ok (_trunc_err_bonds self) i Hi) as (k & old & Hget & _).
  unfold mbind, M_bind, modify, reads in E. simpl in E.
  rewrite Hget in E. discriminate E.
Qed.

Local Tactic Notation "peel_ok" hyp(E) "as" simple_intropattern(a) ident(Ha) :=
  apply bind_preserved_run in E;
  [ destruct E as [[_ [? [=]]]|(a & Ha & E)]
  | first [ apply preserves_reads | apply preserves_lift | apply disentangle_preserves
          | apply preserves_ret ] ].

(** What a call of [update_bond] that returns has done: it factorized the
    two-site wavefunction of this call, returned the truncation error of
    that factorization, and stored the old accumulator plus that error. *)
Lemma update_bond_Ok_inv i U_bond self self' err :
  update_bond i U_bond self = (self', Ok err) →
  ∃ theta U_disent U S' V renormalize k old,
    two_site_wavefunction i U_bond self = (self, Ok (theta, U_disent)) ∧
    svd_theta theta (TEBD_params self) ["vR"; "vL"] = Ok (U, S', V, err, renormalize) ∧
    py_getitem (_trunc_err_bonds self) i = Ok (k, old) ∧
    _trunc_err_bonds self' = <[k := trunc_add old err]> (_trunc_err_bonds self).
Proof.
  intros E. unfold update_bond in E.
  peel_ok E as theta0 Hth0. peel_ok E as theta1 Hth1.
  peel_ok E as [theta2 U_disent] Hdis. peel_ok E as theta Hcomb.
  peel_ok E as [[[[U S'] V] trunc_err] renormalize] Hsvd.
  peel_ok E as B_R HBR. peel_ok E as C0 HC0. peel_ok E as C1 HC1.
  apply bind_preserved_run in E;
    [destruct E as [[_ [? [=]]]|(C2 & _ & E)]
    | destruct U_disent; [apply preserves_lift | apply preserves_ret]].
  peel_ok E as pipe Hpipe. peel_ok E as C3 HC3.
  peel_ok E as B_L0 HBL0. peel_ok E as B_L1 HBL1.
  unfold mbind, M_bind, modify, reads in E. simpl in E.
  destruct (py_getitem (_trunc_err_bonds self) i) as [[k old]|] eqn:Hget; [|discriminate].
  inversion E; subst; clear E. simpl.
  exists theta, U_disent, U, S', V, renormalize, k, old.
  split; [|split; [|split]]; auto.
  - unfold two_site_wavefunction, mbind, M_bind.
    rewrite Hth0, Hth1, Hdis, Hcomb. reflexivity.
  - unfold reads in Hsvd. inversion Hsvd. reflexivity.
Qed.

(** C10: a call of [update_bond] that returns hands back the truncation
    error that the factorization of this very call produced, not the
    running total, and the accumulator of the bond becomes the old total
    plus that error. *)
Theorem update_bond_returns_increment i U_bond self self' err :
  update_bond i U_bond self = (self', Ok err) →
  ∃ theta U_disent U S' V renormalize k old,
    two_site_wavefunction i U_bond self = (self, Ok (theta, U_disent)) ∧
    svd_theta theta (TEBD_params self) ["vR"; "vL"] = Ok (U, S', V, err, renormalize) ∧
    py_getitem (_trunc_err_bonds self) i = Ok (k, old) ∧
    _trunc_err_bonds self' = <[k := trunc_add old err]> (_trunc_err_bonds self).
Proof. apply update_bond_Ok_inv. Qed.

(** The accumulators in order: [le] compares two of them and [nonneg]
    says that an error adds nothing negative. *)
Section Monotone.
Variable le : TruncationError → TruncationError → Prop.
Variable nonneg : TruncationError → Prop.
Hypothesis le_refl : ∀ x, le x x.
Hypothesis le_trans : ∀ x y z, le x y → le y z → le x z.
Hypothesis le_add : ∀ x e, nonneg e → le x (trunc_add x e).
Hypothesis svd_theta_nonneg :
  ∀ theta params lbls U S' V err renormalize,
    svd_theta theta params lbls = Ok (U, S', V, err, renormalize) → nonneg err.

Lemma update_bond_accumulates i U_bond self self' err k old :
  update_bond i U_bond self = (self', Ok err) →
  _trunc_err_bonds self !! k = Some old →
  length (_trunc_err_bonds self') = length (_trunc_err_bonds self) ∧
  _trunc_err_bonds self' !! k
  = Some (if selects (length (_trunc_err_bonds self)) i k then trunc_add old err else old) ∧
  nonneg err.
Proof.
  intros E Hk.
  apply update_bond_Ok_inv in E
    as (theta & Ud & U & S' & V & rn & k' & old' & _ & Hsvd & Hget & ->).
  apply py_getitem_inv in Hget as [Hidx Hold'].
  split; [apply length_insert|]. split; [|eapply svd_theta_nonneg; eassumption].
  unfold selects. rewrite Hidx.
  destruct (Nat.eqb_spec k' k) as [->|Hne].
  - rewrite Hk in Hold'. injection Hold' as <-.
    apply list_lookup_insert_eq. eapply lookup_lt_Some; eassumption.
  - rewrite list_lookup_insert_ne by assumption. assumption.
Qed.

(** C5: over any run of calls of [update_bond] that return, with no
    reset in between, the accumulator stored for a bond is the value it
    had before the run with the error of every call on that bond added
    to it, one after the other (no call replaces what was stored), and so
    it never decreases. *)
Theorem trunc_err_bonds_monotone self log self' k old :
  successive_updates self log self' →
  _trunc_err_bonds self !! k = Some old →
  _trunc_err_bonds self' !! k
  = Some (accumulated (length (_trunc_err_bonds self)) k log old) ∧
  le old (accumulated (length (_trunc_err_bonds self)) k log old).
Proof.
  intros Hrun. revert old.
  induction Hrun as [self|self self' self'' i U_bond err log E _ IH]; intros old Hk.
  - simpl. auto.
  - destruct (update_bond_accumulates _ _ _ _ _ _ _ E Hk) as (Hlen & Hmid & Hnn).
    destruct (IH _ Hmid) as [Hnew Hle]. rewrite Hlen in Hnew, Hle.
    simpl. split; [exact Hnew|].
    eapply le_trans; [|exact Hle].
    destruct (selects _ i k); [apply le_add; assumption | apply le_refl].
Qed.
End Monotone.
End UpdateBondFacts.

Section DispatchFacts.
Context {F : Type} {scalar : Scalar F} {collab : Collaborators F}.

(** C7: a configured [disentangle] value other than [None],
    ["backwards"] and ["renyi"] makes the dispatch raise a [ValueError]
    whose message ends with the [repr] of that value, and the engine
    object is left as it was. *)
Theorem disentangle_invalid_value theta i U_bond self v :
  TEBD_params self !! "disentangle" = Some v →
  v ≠ PyNone → v ≠ PyStr "backwards" → v ≠ PyStr "renyi" →
  disentangle theta i U_bond self
  = (self, Raise (ValueError ("Invalid 'disentangle': got " ++ py_repr v))).
Proof.
  intros Hv Hnone Hback Hrenyi.
  unfold disentangle, mbind, M_bind, reads, get_parameter. rewrite Hv. simpl.
  destruct v as [|s|z|x]; try reflexivity.
  - contradiction.
  - unfold py_eq_str.
    destruct (String.eqb s "backwards") eqn:E1.
    { apply String.eqb_eq in E1. subst s. contradiction. }
    destruct (String.eqb s "renyi") eqn:E2.
    { apply String.eqb_eq in E2. subst s. contradiction. }
    reflexivity.
Qed.

(** C8: with [disentangle] absent from the configuration, or set to
    [None], the dispatch returns the wavefunction it was given and no
    unitary, and touches nothing. *)
Theorem disentangle_none_is_identity theta i U_bond self :
  TEBD_params self !! "disentangle" = None ∨ TEBD_params self !! "disentangle" = Some PyNone →
  disentangle theta i U_bond self = (self, Ok (theta, None)).
Proof.
  intros [Hv|Hv]; unfold disentangle, mbind, M_bind, reads, get_parameter;
    rewrite Hv; reflexivity.
Qed.

(** Whatever the strategy, a unitary that is handed back has been applied
    to the auxiliary legs of the wavefunction, and when none is handed
    back the wavefunction is the one that came in. *)
Lemma disentangle_applies_unitary theta i U_bond self self' theta' U_disent :
  disentangle theta i U_bond self = (self', Ok (theta', U_disent)) →
  match U_disent with
  | Some U => tensordot U theta ["q0*"; "q1*"] ["q0"; "q1"] = Ok theta'
  | None => theta' = theta
  end.
Proof.
  unfold disentangle. intros E.
  apply bind_run in E as [(e & _ & [=])|(s1 & d & Ed & E)].
  assert (Hback : ∀ s s', disentangle_backwards theta U_bond s = (s', Ok (theta', U_disent)) →
            match U_disent with
            | Some U => tensordot U theta ["q0*"; "q1*"] ["q0"; "q1"] = Ok theta'
            | None => theta' = theta
            end).
  { clear. intros s s' E. unfold disentangle_backwards in E.
    apply bind_run in E as [(e & _ & [=])|(s1 & t & _ & E)].
    destruct (py_eq_str t "imag").
    - inversion E; subst. reflexivity.
    - apply bind_run in E as [(e & _ & [=])|(s2 & U & _ & E)].
      apply bind_run in E as [(e & _ & [=])|(s3 & th & Eth & E)].
      inversion E; subst. unfold lift in Eth. inversion Eth. reflexivity. }
  assert (Hrenyi : ∀ s s', disentangle_renyi theta s = (s', Ok (theta', U_disent)) →
            match U_disent with
            | Some U => tensordot U theta ["q0*"; "q1*"] ["q0"; "q1"] = Ok theta'
            | None => theta' = theta
            end).
  { clear. intros s s' E. unfold disentangle_renyi in E.
    do 6 (apply bind_run in E as [(e & _ & [=])|(? & ? & _ & E)]).
    apply bind_run in E as [(e & _ & [=])|(? & th & Eth & E)].
    do 2 (apply bind_run in E as [(e & _ & [=])|(? & ? & _ & E)]).
    inversion E; subst. unfold lift in Eth. inversion Eth. reflexivity. }
  destruct d as [|s|z|x]; simpl in E.
  - inversion E. reflexivity.
  - destruct (String.eqb s "backwards"); [exact (Hback _ _ E)|].
    destruct (String.eqb s "renyi"); [exact (Hrenyi _ _ E)|].
    unfold lift in E. discriminate E.
  - unfold lift in E. discriminate E.
  - unfold lift in E. discriminate E.
Qed.
End DispatchFacts.

(** ** The imaginary-time driver *)

Lemma Qfloor_unique (x : Q) (z : Z) :
  (inject_Z z <= x)%Q → (x < inject_Z (z + 1))%Q → Qfloor x = z.
Proof.
  intros Hlo Hhi.
  pose proof (Qfloor_le x) as H1. pose proof (Qlt_floor x) as H2.
  assert (A : (inject_Z z < inject_Z (Qfloor x + 1))%Q) by (eapply Qle_lt_trans; eassumption).
  assert (B : (inject_Z (Qfloor x) < inject_Z (z + 1))%Q) by (eapply Qle_lt_trans; eassumption).
  rewrite <- Zlt_Qlt in A, B. lia.
Qed.

Lemma Qtrunc_nonneg (x : Q) : (0 <= x)%Q → Qtrunc x = Qfloor x.
Proof.
  destruct x as [n d]. unfold Qle, Qtrunc, Qfloor. simpl. intros Hn.
  apply Z.quot_div_nonneg; lia.
Qed.

(** For [x > -1/2], adding a half and truncating toward zero rounds to the
    nearest integer. *)
Lemma Qtrunc_half_is_round (x : Q) :
  (- (1 # 2) < x)%Q → Qtrunc (x + (1 # 2)) = py_round x.
Proof.
  intros Hx. rewrite Qtrunc_nonneg by lra. unfold py_round.
  destruct (Qle_bool 0 x) eqn:E; [reflexivity|].
  assert (Hneg : (x < 0)%Q).
  { apply Qnot_le_lt. intros Hle. apply Qle_bool_iff in Hle. congruence. }
  unfold Qceiling.
  assert (H1 : Qfloor (x + (1 # 2)) = 0).
  { apply Qfloor_unique;
      [change (inject_Z 0) with 0%Q | change (inject_Z (0 + 1)) with 1%Q]; lra. }
  assert (H2 : Qfloor (- (x - (1 # 2))) = 0).
  { apply Qfloor_unique;
      [change (inject_Z 0) with 0%Q | change (inject_Z (0 + 1)) with 1%Q]; lra. }
  rewrite H1, H2. reflexivity.
Qed.

Lemma Qtrunc_comp_nonneg (a b : Q) : (0 <= a)%Q → (a == b)%Q → Qtrunc a = Qtrunc b.
Proof.
  intros Ha E. rewrite !Qtrunc_nonneg by lra. apply Qfloor_comp. exact E.
Qed.

Section DriverFacts.
Context {F : Type} {scalar : Scalar F} {collab : Collaborators F} {inherited : Inherited}.

Lemma N_steps_round beta delta_t q :
  py_truediv beta delta_t = Ok (Fin q) →
  (- (1 # 2) < q)%Q →
  fl_exact (fl_add (Fin q) (Fin (1 # 2))) (q + (1 # 2)) →
  N_steps beta delta_t = Ok (py_round q).
Proof.
  intros Hq Hlo Hex. unfold N_steps. rewrite Hq.
  change (py_int (fl_add (Fin q) (Fin (1 # 2))) = Ok (py_round q)).
  destruct (fl_add (Fin q) (Fin (1 # 2))) as [a| | |]; try contradiction.
  simpl in Hex. simpl. f_equal.
  rewrite <- Qtrunc_half_is_round by assumption.
  apply Qtrunc_comp_nonneg; [lra | exact Hex].
Qed.

End DriverFacts.

(** ** The methods on the one-dimensional chain *)

Section ChainRuns.
Let renyi_params : gmap string PyVal :=
  <["disent_max_iter" := PyInt 0]> {["disentangle" := PyStr "renyi"]}.

(** A raising call on a valid bond index leaves the engine alone. *)
Lemma update_bond_raise_keeps_state_witness :
  is_Ok (py_index (length (_trunc_err_bonds (chain_engine ∅ 0))) 1) = true ∧
  (update_bond 1 mislabelled_gate (chain_engine ∅ 0)).2 = Raise (KeyError "p0*") ∧
  (update_bond 1 mislabelled_gate (chain_engine ∅ 0)).1 = chain_engine ∅ 0.
Proof.
  split; [reflexivity|]. split; [vm_compute; reflexivity|].
  apply (update_bond_raise_keeps_state 1 mislabelled_gate (chain_engine ∅ 0) _
           (KeyError "p0*")).
  - reflexivity.
  - vm_compute. reflexivity.
Defined.

(** C1 fails as stated: on a periodic chain of two sites with three
    accumulators, [update_bond(5, gate)] writes both site tensors and the
    bond weight and then raises [IndexError] at [_trunc_err_bonds[5]];
    the site tensors are no longer what they were. *)
Lemma update_bond_partial_write :
  (update_bond 5 chain_gate (chain_engine ∅ 0)).2 = Raise IndexError ∧
  chain_B (psi (chain_engine ∅ 0)) = [2; 3] ∧
  chain_B (psi (update_bond 5 chain_gate (chain_engine ∅ 0)).1) = [1; 1].
Proof. vm_compute. repeat split. Qed.

(** Three lossy updates, of the bonds 1, 2 and 1: the accumulator of bond 1
    goes from 7 to 7 + 2 + 2. *)
Lemma trunc_err_bonds_monotone_witness :
  _trunc_err_bonds
    (update_bond (collab := Lossy_Collaborators) 1 chain_gate
       (update_bond (collab := Lossy_Collaborators) 2 chain_gate
          (update_bond (collab := Lossy_Collaborators) 1 chain_gate lossy_engine).1).1).1
    !! 1%nat = Some 11
  ∧ 7 ≤ 11.
Proof.
  apply (trunc_err_bonds_monotone (collab := Lossy_Collaborators) Z.le (λ e, 0 ≤ e)
           Z.le_refl Z.le_trans) with (self := lossy_engine) (log := [(1, 2); (2, 2); (1, 2)])
                                      (k := 1%nat) (old := 7).
  - intros x e He. simpl. lia.
  - intros theta params lbls U S' V err rn [= _ _ _ <- _]. simpl. lia.
  - set (s1 := (update_bond (collab := Lossy_Collaborators) 1 chain_gate lossy_engine).1).
    set (s2 := (update_bond (collab := Lossy_Collaborators) 2 chain_gate s1).1).
    set (s3 := (update_bond (collab := Lossy_Collaborators) 1 chain_gate s2).1).
    apply (updates_more (collab := Lossy_Collaborators) lossy_engine s1 s3 1 chain_gate 2);
      [vm_compute; reflexivity|].
    apply (updates_more (collab := Lossy_Collaborators) s1 s2 s3 2 chain_gate 2);
      [vm_compute; reflexivity|].
    apply (updates_more (collab := Lossy_Collaborators) s2 s3 s3 1 chain_gate 2);
      [vm_compute; reflexivity|].
    exact (updates_none (collab := Lossy_Collaborators) s3).
  - reflexivity.
Defined.

Lemma update_bond_returns_increment_witness :
  (update_bond 1 chain_gate (chain_engine ∅ 0)).2 = Ok 0 ∧
  ∃ theta U_disent U S' V renormalize k old,
    two_site_wavefunction 1 chain_gate (chain_engine ∅ 0)
    = (chain_engine ∅ 0, Ok (theta, U_disent)) ∧
    svd_theta theta ∅ ["vR"; "vL"] = Ok (U, S', V, 0, renormalize) ∧
    py_getitem [5; 7; 9] 1 = Ok (k, old) ∧
    _trunc_err_bonds (update_bond 1 chain_gate (chain_engine ∅ 0)).1
    = <[k := old + 0]> [5; 7; 9].
Proof.
  split; [vm_compute; reflexivity|].
  apply (update_bond_returns_increment 1 chain_gate (chain_engine ∅ 0)
           (update_bond 1 chain_gate (chain_engine ∅ 0)).1 0).
  vm_compute. reflexivity.
Defined.

Lemma disentangle_invalid_value_witness :
  disentangle chain_theta 1 chain_gate (chain_engine {["disentangle" := PyStr "unknown"]} 0)
  = (chain_engine {["disentangle" := PyStr "unknown"]} 0,
     Raise (ValueError "Invalid 'disentangle': got 'unknown'")).
Proof.
  apply (disentangle_invalid_value chain_theta 1 chain_gate
           (chain_engine {["disentangle" := PyStr "unknown"]} 0) (PyStr "unknown"));
    [reflexivity | discriminate | discriminate | discriminate].
Defined.

Lemma disentangle_none_is_identity_witness :
  disentangle chain_theta 1 chain_gate (chain_engine ∅ 0)
  = (chain_engine ∅ 0, Ok (chain_theta, None)).
Proof.
  apply (disentangle_none_is_identity chain_theta 1 chain_gate (chain_engine ∅ 0)).
  left. reflexivity.
Defined.



(** C3 at the input on which the code fails: with [disent_max_iter = 0]
    the loop body never runs, [i] and [S] are never bound, and with
    [verbose >= 10] the report line raises, both from
    [disentangle_renyi] and from [update_bond]. *)
Theorem disentangle_renyi_zero_iterations_raises :
  disentangle_renyi chain_theta (chain_engine renyi_params 10)
  = (chain_engine renyi_params 10, Raise (UnboundLocalError "i"))
  ∧ update_bond 1 chain_gate (chain_engine renyi_params 10)
    = (chain_engine renyi_params 10, Raise (UnboundLocalError "i")).
Proof. vm_compute. split; reflexivity. Qed.
End ChainRuns.

Lemma Z_scalar_ring : scalar_ring Z.
Proof. constructor; intros; simpl; lia. Qed.

(** ** Finite sums over a commutative ring *)

Section SumFacts.
Context {F : Type} {scalar : Scalar F}.
Hypothesis Fring : scalar_ring F.
Let Fring' : ring_theory F0 F1 Fadd Fmul (λ x y, Fadd x (Fopp y)) Fopp eq := Fring.
Add Ring Fring_inst : Fring'.

Lemma Fsum_ext n (f g : nat → F) :
  (∀ i, (i < n)%nat → f i = g i) → Fsum n f = Fsum n g.
Proof.
  induction n as [|n IH]; intros E; simpl; [reflexivity|].
  rewrite IH by (intros; apply E; lia). rewrite E by lia. reflexivity.
Qed.

Lemma Fsum_zero n : Fsum n (λ _, F0) = F0.
Proof. induction n as [|n IH]; simpl; [reflexivity|]. rewrite IH. ring. Qed.

Lemma Fsum_add n (f g : nat → F) :
  Fsum n (λ i, Fadd (f i) (g i)) = Fadd (Fsum n f) (Fsum n g).
Proof. induction n as [|n IH]; simpl; [ring|]. rewrite IH. ring. Qed.

Lemma Fsum_mul_l n c (f : nat → F) :
  Fsum n (λ i, Fmul c (f i)) = Fmul c (Fsum n f).
Proof. induction n as [|n IH]; simpl; [ring|]. rewrite IH. ring. Qed.

Lemma Fsum_mul_r n c (f : nat → F) :
  Fsum n (λ i, Fmul (f i) c) = Fmul (Fsum n f) c.
Proof. induction n as [|n IH]; simpl; [ring|]. rewrite IH. ring. Qed.

Lemma Fsum_swap n m (f : nat → nat → F) :
  Fsum n (λ i, Fsum m (λ j, f i j)) = Fsum m (λ j, Fsum n (λ i, f i j)).
Proof.
  induction n as [|n IH]; simpl.
  - symmetry. apply Fsum_zero.
  - rewrite IH. symmetry. apply (Fsum_add m (λ j, Fsum n (λ i, f i j)) (λ j, f n j)).
Qed.

Lemma Fsum_delta n j (g : nat → F) :
  (j < n)%nat → Fsum n (λ i, Fmul (g i) (delta i j)) = g j.
Proof.
  induction n as [|n IH]; intros Hj; [lia|]. simpl.
  destruct (decide (j = n)) as [->|Hne].
  - rewrite (Fsum_ext n _ (λ _, F0)).
    + rewrite Fsum_zero. unfold delta. rewrite Nat.eqb_refl. ring.
    + intros i Hi. unfold delta. destruct (Nat.eqb_spec i n); [lia|ring].
  - rewrite IH by lia. unfold delta at 1. destruct (Nat.eqb_spec n j); [lia|ring].
Qed.

Lemma Fsum2_delta n m a b (g : nat → nat → F) (c : F) :
  (a < n)%nat → (b < m)%nat →
  Fsum n (λ i, Fsum m (λ j, Fmul (g i j) (Fmul c (Fmul (delta i a) (delta j b)))))
  = Fmul (g a b) c.
Proof.
  intros Ha Hb.
  rewrite (Fsum_ext n _ (λ i, Fmul (Fmul (g i b) c) (delta i a))).
  - apply (Fsum_delta n a (λ i, Fmul (g i b) c)). assumption.
  - intros i Hi.
    rewrite (Fsum_ext m _ (λ j, Fmul (Fmul (Fmul (g i j) c) (delta i a)) (delta j b)))
      by (intros; ring).
    apply (Fsum_delta m b (λ j, Fmul (Fmul (g i j) c) (delta i a))). assumption.
Qed.

(** C6: under real-time evolution, for a wavefunction whose auxiliary legs
    are maximally entangled with its physical legs and a unitary gate,
    applying the gate to the physical legs and then the backwards
    disentangler gives back the wavefunction from before the gate (the same
    labelled legs and the same entries, the legs in another order). *)
Theorem backwards_undoes_gate dL dR d0 d1 (lam : nat → nat → F) (u : list nat → F)
    {collab : Collaborators F} (self : Engine) type_evo :
  unitary_gate d0 d1 u →
  _U_param self !! "type_evo" = Some type_evo →
  py_eq_str type_evo "imag" = false →
  let theta := wavefunction dL dR d0 d1 d0 d1 (maximally_entangled lam) in
  let U_bond := bond_gate d0 d1 u in
  ∃ theta1 theta2 U,
    tensordot U_bond theta ["p0*"; "p1*"] ["p0"; "p1"] = Ok theta1 ∧
    disentangle_backwards theta1 U_bond self = (self, Ok (theta2, Some U)) ∧
    same_tensor theta2 theta.
Proof.
  intros Hu Hevo Himag theta U_bond.
  eexists _, _, _. split; [|split].
  - unfold tensordot. cbn. unfold tensordot_axes. cbn.
    rewrite bool_decide_eq_true_2 by reflexivity. cbn. reflexivity.
  - unfold disentangle_backwards, mbind, M_bind, reads. rewrite Hevo, Himag.
    unfold lift, tensordot. cbn. unfold tensordot_axes. cbn.
    rewrite bool_decide_eq_true_2 by reflexivity. cbn. reflexivity.
  - split.
    + cbn.
      change (([("q0", Leg d0); ("q1", Leg d1)] ++ [("p0", Leg d0); ("p1", Leg d1)]
               ++ [("vL", Leg dL); ("vR", Leg dR)])
              ≡ₚ ([("vL", Leg dL); ("vR", Leg dR)] ++ [("p0", Leg d0); ("p1", Leg d1)]
                  ++ [("q0", Leg d0); ("q1", Leg d1)])).
      rewrite (Permutation_app_comm [("q0", Leg d0); ("q1", Leg d1)]).
      rewrite (Permutation_app_comm [("p0", Leg d0); ("p1", Leg d1)]).
      rewrite <- app_assoc. reflexivity.
    + intros env Hr. unfold in_range in Hr. cbn in Hr.
      repeat match goal with H : Forall2 _ (_ :: _) (_ :: _) |- _ =>
               apply Forall2_cons_1 in H as [? H] end.
      unfold entry. cbn. simpl in *.
      set (l := env "vL") in *. set (r := env "vR") in *.
      set (a := env "p0") in *. set (b := env "p1") in *.
      set (c := env "q0") in *. set (d := env "q1") in *.
      rewrite (Fsum_ext d0 _ (λ i, Fsum d1 (λ j,
                 Fmul (lam l r) (Fmul (u [a; b; i; j]) (Fconj (u [c; d; i; j])))))).
      * rewrite (Fsum_ext d0 _ (λ i, Fmul (lam l r) (Fsum d1 (λ j,
                   Fmul (u [a; b; i; j]) (Fconj (u [c; d; i; j]))))))
          by (intros; apply Fsum_mul_l).
        rewrite Fsum_mul_l. rewrite (Hu a b c d) by assumption.
        unfold maximally_entangled. cbn. reflexivity.
      * intros i Hi. apply Fsum_ext. intros j Hj.
        unfold maximally_entangled. cbn.
        rewrite (Fsum2_delta d0 d1 i j (λ i1 i2, u [a; b; i1; i2]) (lam l r)) by assumption.
        ring.
Qed.
End SumFacts.

Lemma swap_gate_unitary : unitary_gate 2 2 swap_gate.
Proof.
  intros a b a' b' Ha Hb Ha' Hb'.
  destruct a as [|[|a]]; [| |lia]; destruct b as [|[|b]]; [| |lia | | |lia];
    destruct a' as [|[|a']]; try lia; destruct b' as [|[|b']]; try lia; reflexivity.
Qed.

(** The swap gate followed by the backwards disentangler, on two sites of
    dimension two. *)
Lemma backwards_undoes_gate_witness :
  ∃ theta1 theta2 U,
    tensordot (bond_gate 2 2 swap_gate)
      (wavefunction 1 1 2 2 2 2 (maximally_entangled (λ _ _, 1%Z)))
      ["p0*"; "p1*"] ["p0"; "p1"] = Ok theta1 ∧
    disentangle_backwards theta1 (bond_gate 2 2 swap_gate) real_time_engine
    = (real_time_engine, Ok (theta2, Some U)) ∧
    same_tensor theta2 (wavefunction 1 1 2 2 2 2 (maximally_entangled (λ _ _, 1%Z))).
Proof.
  apply (backwards_undoes_gate Z_scalar_ring 1 1 2 2 (λ _ _, 1%Z) swap_gate
           real_time_engine (PyStr "real")).
  - exact swap_gate_unitary.
  - reflexivity.
  - reflexivity.
Defined.

Section UpdateBondStores.
Context {F : Type} {scalar : Scalar F} {collab : Collaborators F}.

Local Tactic Notation "peel_ok" hyp(E) "as" simple_intropattern(a) ident(Ha) :=
  apply bind_preserved_run in E;
  [ destruct E as [[_ [? [=]]]|(a & Ha & E)]
  | first [ apply preserves_reads | apply preserves_lift | apply disentangle_preserves
          | apply preserves_ret ] ].

(** The left tensor a returning call of [update_bond] stores is
    [stable_left_tensor] of the wavefunction, the factors and the
    renormalization of that call. *)
Lemma update_bond_stores i U_bond self self' err :
  update_bond i U_bond self = (self', Ok err) →
  ∃ theta U_disent U S' V renormalize C B_L B_R,
    two_site_wavefunction i U_bond self = (self, Ok (theta, U_disent)) ∧
    svd_theta theta (TEBD_params self) ["vR"; "vL"] = Ok (U, S', V, err, renormalize) ∧
    get_theta (psi self) (i - 1) 2 (Fin 0) = Ok C ∧
    stable_left_tensor U_bond U_disent theta V C renormalize = Ok B_L ∧
    psi self' = set_B (set_B (set_SR (psi self) (i - 1) S') (i - 1) B_L "B") i B_R "B".
Proof.
  intros E. unfold update_bond in E.
  peel_ok E as theta0 Hth0. peel_ok E as theta1 Hth1.
  peel_ok E as [theta2 U_disent] Hdis. peel_ok E as theta Hcomb.
  peel_ok E as [[[[U S'] V] trunc_err] renormalize] Hsvd.
  peel_ok E as B_R HBR. peel_ok E as C0 HC0. peel_ok E as C1 HC1.
  apply bind_preserved_run in E;
    [destruct E as [[_ [? [=]]]|(C2 & HC2 & E)]
    | destruct U_disent; [apply preserves_lift | apply preserves_ret]].
  peel_ok E as pipe Hpipe. peel_ok E as C3 HC3.
  peel_ok E as B_L0 HBL0. peel_ok E as B_L1 HBL1.
  unfold mbind, M_bind, modify, reads in E. simpl in E.
  destruct (py_getitem (_trunc_err_bonds self) i) as [[k old]|] eqn:Hget; [|discriminate].
  inversion E; subst; clear E. simpl.
  exists theta, U_disent, U, S', V, renormalize, C0, (idiv_scalar B_L1 renormalize), B_R.
  unfold reads, lift in *.
  repeat match goal with H : (_, _) = (_, _) |- _ => injection H as H end.
  split; [|split; [|split; [|split]]]; auto.
  - unfold two_site_wavefunction, mbind, M_bind, reads, lift.
    rewrite Hth0, Hth1, Hdis, Hcomb. reflexivity.
  - unfold stable_left_tensor, recompose_left, mbind, result_bind.
    rewrite HC1.
    assert (HC2' : match U_disent with
                   | Some U_disent => tensordot U_disent C1 ["q0*"; "q1*"] ["q0"; "q1"]
                   | None => Ok C1
                   end = Ok C2).
    { destruct U_disent; [unfold lift in HC2; injection HC2 as HC2; exact HC2|].
      inversion HC2. reflexivity. }
    rewrite HC2', Hpipe, HC3, HBL0, HBL1. reflexivity.
Qed.
End UpdateBondStores.

(** ** Index arithmetic of combined legs *)

Local Open Scope nat_scope.

Lemma dims_prod_cons d ds : dims_prod (d :: ds) = (d * dims_prod ds)%nat.
Proof. reflexivity. Qed.

Lemma unravel_cons d ds k :
  unravel (d :: ds) k = (k / dims_prod ds)%nat :: unravel ds (k mod dims_prod ds)%nat.
Proof. reflexivity. Qed.

Lemma ravel_cons d ds i r :
  ravel (d :: ds) (i :: r) = (i * dims_prod ds + ravel ds r)%nat.
Proof. reflexivity. Qed.

Lemma ravel_lt dims idx :
  Forall2 lt idx dims → (ravel dims idx < dims_prod dims)%nat.
Proof.
  intros Hr. induction Hr as [|i d idx dims Hi Hr IH].
  - unfold ravel, dims_prod. simpl. lia.
  - rewrite ravel_cons, dims_prod_cons. nia.
Qed.

Lemma unravel_ravel dims idx :
  Forall2 lt idx dims → unravel dims (ravel dims idx) = idx.
Proof.
  intros Hr. induction Hr as [|i d idx dims Hi Hr IH]; [reflexivity|].
  pose proof (ravel_lt _ _ Hr) as Hlt.
  rewrite ravel_cons, unravel_cons. f_equal.
  - rewrite Nat.div_add_l by lia. rewrite Nat.div_small by assumption. lia.
  - rewrite Nat.add_comm, Nat.Div0.mod_add. rewrite Nat.mod_small by assumption. exact IH.
Qed.

Lemma unravel_lt dims k :
  (k < dims_prod dims)%nat → Forall2 lt (unravel dims k) dims.
Proof.
  revert k. induction dims as [|d ds IH]; intros k Hk; [constructor|].
  rewrite unravel_cons. rewrite dims_prod_cons in Hk.
  assert (0 < dims_prod ds)%nat by nia.
  constructor.
  - apply Nat.Div0.div_lt_upper_bound. lia.
  - apply IH. apply Nat.mod_upper_bound. lia.
Qed.

Lemma unravel3_lt x y z k :
  (k < dims_prod [x; y; z])%nat →
  (nth 0 (unravel [x; y; z] k) 0 < x)%nat ∧ (nth 1 (unravel [x; y; z] k) 0 < y)%nat
  ∧ (nth 2 (unravel [x; y; z] k) 0 < z)%nat.
Proof.
  intros Hk. apply unravel_lt in Hk. rewrite !unravel_cons in *.
  apply Forall2_cons_1 in Hk as [? Hk]. apply Forall2_cons_1 in Hk as [? Hk].
  apply Forall2_cons_1 in Hk as [? Hk]. simpl. auto.
Qed.

Lemma ravel3_lt x y z l a c :
  (l < x)%nat → (a < y)%nat → (c < z)%nat → (ravel [x; y; z] [l; a; c] < dims_prod [x; y; z])%nat.
Proof. intros. apply ravel_lt. repeat constructor; assumption. Qed.

Lemma unravel_ravel3 x y z l a c :
  (l < x)%nat → (a < y)%nat → (c < z)%nat →
  unravel [x; y; z] (ravel [x; y; z] [l; a; c]) = [l; a; c].
Proof. intros. apply unravel_ravel. repeat constructor; assumption. Qed.

Opaque unravel ravel.

Section LeftTensorFacts.
Context {F : Type} {scalar : Scalar F}.
Hypothesis Ffield : scalar_field F.
Let Fring' : ring_theory F0 F1 Fadd Fmul (λ x y, Fadd x (Fopp y)) Fopp eq := proj1 Ffield.
Add Ring Ffield_ring : Fring'.

Variables dL dR dp0 dp1 dq0 dq1 chi : nat.
Variables (t2 c2 uu vv : list nat → F) (S' SL : list F) (rn : F).

Local Abbreviation legsA := [Leg dq0; Leg dq1; Leg dp0; Leg dp1; Leg dL; Leg dR].
Local Abbreviation lblsA := ["q0"; "q1"; "p0"; "p1"; "vL"; "vR"].
Local Abbreviation pipe0 := (LegPipe [Leg dL; Leg dp0; Leg dq0]).
Local Abbreviation pipe1 := (LegPipe [Leg dR; Leg dp1; Leg dq1]).
Local Abbreviation U := (mkArray [pipe0; Leg chi] ["(vL.p0.q0)"; "vR"] uu).
Local Abbreviation V := (mkArray [Leg chi; pipe1] ["vL"; "(vR.p1.q1)"] vv).

(** Runs the tensor operations on arrays whose legs and labels are known. *)
Ltac tsimpl :=
  repeat (progress (
    unfold recompose_left, stable_left_tensor, naive_left_tensor, get_leg, combine_legs, make_pipe,
           tensordot, tensordot_axes, ireplace_labels, iscale_axis, split_legs, conj,
           idiv_scalar, rank, mbind, result_bind, py_index in *;
    simpl in *;
    rewrite ?Nat.eqb_refl, ?(bool_decide_eq_true_2 _ eq_refl) in *)).



Hypothesis HS : length S' = chi.
Hypothesis HSL : length SL = dL.
Hypothesis HSLnz : ∀ l, (l < dL)%nat → nth l SL F0 ≠ F0.
Hypothesis Hrn : rn ≠ F0.
Hypothesis HV : ∀ k k', (k < chi)%nat → (k' < chi)%nat →
  Fsum (dims_prod [dR; dp1; dq1]) (λ col, Fmul (vv [k; col]) (Fconj (vv [k'; col]))) = delta k k'.

Lemma Fdiv_def x y : Fdiv x y = Fmul x (Fdiv F1 y).
Proof. apply Ffield. Qed.
Lemma Finv_l y : y ≠ F0 → Fmul (Fdiv F1 y) y = F1.
Proof. apply Ffield. Qed.

(** If [s * X = rn * Y] then [X / rn = Y * (1 / s)]. *)
Lemma cross_divide s X Y : s ≠ F0 → Fmul s X = Fmul rn Y → Fdiv X rn = Fmul Y (Fdiv F1 s).
Proof.
  intros Hs E. rewrite Fdiv_def.
  assert (E1 : X = Fmul (Fmul (Fdiv F1 s) rn) Y).
  { transitivity (Fmul (Fmul (Fdiv F1 s) s) X); [rewrite Finv_l by assumption; ring|].
    transitivity (Fmul (Fdiv F1 s) (Fmul s X)); [ring|]. rewrite E. ring. }
  rewrite E1.
  transitivity (Fmul (Fmul Y (Fdiv F1 s)) (Fmul (Fdiv F1 rn) rn)); [ring|].
  rewrite Finv_l by assumption. ring.
Qed.

(** The heart of the matter: with [theta = SL C] and [theta = rn U S V],
    contracting [C] with the conjugate of [V] and dividing by [rn] gives
    [U S / SL]. *)
Lemma contract_right_factor (s : F) (Crow Trow : nat → F) (Urow : nat → F) k :
  (k < chi)%nat → s ≠ F0 →
  (∀ col, (col < dims_prod [dR; dp1; dq1])%nat → Trow col = Fmul s (Crow col)) →
  (∀ col, (col < dims_prod [dR; dp1; dq1])%nat →
     Trow col = Fmul rn (Fsum chi (λ k', Fmul (Fmul (Urow k') (nth k' S' F0)) (vv [k'; col])))) →
  Fdiv (Fsum (dims_prod [dR; dp1; dq1]) (λ col, Fmul (Crow col) (Fconj (vv [k; col])))) rn
  = Fmul (Fmul (Urow k) (nth k S' F0)) (Fdiv F1 s).
Proof using Ffield HV Hrn.
  intros Hk Hs HT Hrec. apply cross_divide; [assumption|].
  rewrite <- Fsum_mul_l by exact Fring'.
  rewrite (Fsum_ext _ _ (λ col, Fmul rn (Fsum chi (λ k',
             Fmul (Fmul (Fmul (Urow k') (nth k' S' F0)) (vv [k'; col])) (Fconj (vv [k; col])))))).
  2:{ intros col Hcol.
      transitivity (Fmul (Trow col) (Fconj (vv [k; col]))); [rewrite HT by assumption; ring|].
      rewrite Hrec by assumption.
      rewrite (Fsum_mul_r Fring'). ring. }
  rewrite (Fsum_mul_l Fring'). f_equal.
  rewrite (Fsum_swap Fring').
  rewrite (Fsum_ext _ _ (λ k', Fmul (Fmul (Urow k') (nth k' S' F0)) (delta k' k))).
  - apply (Fsum_delta Fring' chi k (λ k', Fmul (Urow k') (nth k' S' F0))). assumption.
  - intros k' Hk'. rewrite <- (HV k' k) by assumption.
    rewrite <- (Fsum_mul_l Fring'). apply Fsum_ext. intros; ring.
Qed.

Lemma nth_map_inv l : (l < dL)%nat → nth l (map (λ s, Fdiv F1 s) SL) F0 = Fdiv F1 (nth l SL F0).
Proof using HSL.
  intros Hl. rewrite (nth_indep _ F0 (Fdiv F1 F0)) by (rewrite length_map, HSL; exact Hl).
  apply (map_nth (λ s, Fdiv F1 s)).
Qed.

Ltac range_hyps Hr :=
  unfold in_range in Hr; simpl in Hr;
  repeat match goal with H : Forall2 _ (_ :: _) (_ :: _) |- _ =>
           apply Forall2_cons_1 in H as [? H] end.

Lemma recompose_layoutA theta :
  (∀ c0 c1 a b l r, (c0 < dq0)%nat → (c1 < dq1)%nat → (a < dp0)%nat → (b < dp1)%nat →
     (l < dL)%nat → (r < dR)%nat →
     t2 [c0; c1; a; b; l; r] = Fmul (nth l SL F0) (c2 [c0; c1; a; b; l; r])) →
  combine_legs (mkArray legsA lblsA t2) [["vL"; "p0"; "q0"]; ["vR"; "p1"; "q1"]] None = Ok theta →
  (∀ row col, (row < dims_prod [dL; dp0; dq0])%nat → (col < dims_prod [dR; dp1; dq1])%nat →
     data theta [row; col]
     = Fmul rn (Fsum chi (λ k, Fmul (Fmul (uu [row; k]) (nth k S' F0)) (vv [k; col])))) →
  ∃ B Bn, recompose_left theta V (mkArray legsA lblsA c2) rn = Ok B
        ∧ naive_left_tensor U S' SL = Ok Bn ∧ same_tensor B Bn.
Proof using All.
  intros Hrel Hth Hrec.
  unfold combine_legs in Hth. simpl in Hth. injection Hth as <-.
  eexists _, _. split; [|split].
  - tsimpl. reflexivity.
  - tsimpl. rewrite HS, Nat.eqb_refl. tsimpl.
    rewrite length_map, HSL, Nat.eqb_refl. tsimpl. reflexivity.
  - split.
    + simpl.
      change (([("q", Leg dq0)] ++ [("p", Leg dp0)] ++ [("vL", Leg dL)] ++ [("vR", Leg chi)])
              ≡ₚ ([("vL", Leg dL)] ++ [("p", Leg dp0)] ++ [("q", Leg dq0)] ++ [("vR", Leg chi)])).
      rewrite (app_assoc [("q", Leg dq0)]), (app_assoc _ [("vL", Leg dL)]).
      rewrite (Permutation_app_comm _ [("vL", Leg dL)]).
      rewrite (Permutation_app_comm [("q", Leg dq0)]).
      rewrite <- !app_assoc. reflexivity.
    + intros env Hr. range_hyps Hr. simpl in *.
      unfold entry, contract_data, combine_data, split_data, rank, place. simpl.
      set (l := env "vL") in *. set (a := env "p") in *.
      set (c := env "q") in *. set (k := env "vR") in *.
      rewrite nth_map_inv by assumption.
      pose proof (ravel3_lt dL dp0 dq0 l a c ltac:(assumption) ltac:(assumption)
                    ltac:(assumption)) as Hrow.
      apply (contract_right_factor (nth l SL F0) _
               (λ col, t2 [c; nth 2 (unravel [dR; dp1; dq1] col) 0; a;
                           nth 1 (unravel [dR; dp1; dq1] col) 0; l;
                           nth 0 (unravel [dR; dp1; dq1] col) 0])
               (λ k', uu [ravel [dL; dp0; dq0] [l; a; c]; k']) k);
        [assumption | apply HSLnz; assumption | |].
      * intros col Hcol. destruct (unravel3_lt _ _ _ _ Hcol) as (? & ? & ?).
        apply Hrel; assumption.
      * intros col Hcol. rewrite <- (Hrec _ col Hrow Hcol).
        unfold combine_data, rank. simpl.
        rewrite unravel_ravel3 by assumption. reflexivity.
Qed.

Local Abbreviation legsB := [Leg dp0; Leg dp1; Leg dL; Leg dR; Leg dq0; Leg dq1].
Local Abbreviation lblsB := ["p0"; "p1"; "vL"; "vR"; "q0"; "q1"].

Lemma recompose_layoutB theta :
  (∀ a b l r c0 c1, (a < dp0)%nat → (b < dp1)%nat → (l < dL)%nat → (r < dR)%nat →
     (c0 < dq0)%nat → (c1 < dq1)%nat →
     t2 [a; b; l; r; c0; c1] = Fmul (nth l SL F0) (c2 [a; b; l; r; c0; c1])) →
  combine_legs (mkArray legsB lblsB t2) [["vL"; "p0"; "q0"]; ["vR"; "p1"; "q1"]] None = Ok theta →
  (∀ row col, (row < dims_prod [dL; dp0; dq0])%nat → (col < dims_prod [dR; dp1; dq1])%nat →
     data theta [row; col]
     = Fmul rn (Fsum chi (λ k, Fmul (Fmul (uu [row; k]) (nth k S' F0)) (vv [k; col])))) →
  ∃ B Bn, recompose_left theta V (mkArray legsB lblsB c2) rn = Ok B
        ∧ naive_left_tensor U S' SL = Ok Bn ∧ same_tensor B Bn.
Proof using All.
  intros Hrel Hth Hrec.
  unfold combine_legs in Hth. simpl in Hth. injection Hth as <-.
  eexists _, _. split; [|split].
  - tsimpl. reflexivity.
  - tsimpl. rewrite HS, Nat.eqb_refl. tsimpl.
    rewrite length_map, HSL, Nat.eqb_refl. tsimpl. reflexivity.
  - split.
    + simpl. apply perm_swap.
    + intros env Hr. range_hyps Hr. simpl in *.
      unfold entry, contract_data, combine_data, split_data, rank, place. simpl.
      set (l := env "vL") in *. set (a := env "p") in *.
      set (c := env "q") in *. set (k := env "vR") in *.
      rewrite nth_map_inv by assumption.
      pose proof (ravel3_lt dL dp0 dq0 l a c ltac:(assumption) ltac:(assumption)
                    ltac:(assumption)) as Hrow.
      apply (contract_right_factor (nth l SL F0) _
               (λ col, t2 [a; nth 1 (unravel [dR; dp1; dq1] col) 0; l;
                           nth 0 (unravel [dR; dp1; dq1] col) 0; c;
                           nth 2 (unravel [dR; dp1; dq1] col) 0])
               (λ k', uu [ravel [dL; dp0; dq0] [l; a; c]; k']) k);
        [assumption | apply HSLnz; assumption | |].
      * intros col Hcol. destruct (unravel3_lt _ _ _ _ Hcol) as (? & ? & ?).
        apply Hrel; assumption.
      * intros col Hcol. rewrite <- (Hrec _ col Hrow Hcol).
        unfold combine_data, rank. simpl.
        rewrite unravel_ravel3 by assumption. reflexivity.
Qed.

(** *** The gate and the disentangler commute with the left weights *)

Variable u : list nat → F.

Lemma gate_step (f : list nat → F) :
  tensordot (bond_gate dp0 dp1 u) (wavefunction dL dR dp0 dp1 dq0 dq1 f)
    ["p0*"; "p1*"] ["p0"; "p1"]
  = Ok (mkArray legsB lblsB
          (contract_data (bond_gate dp0 dp1 u) (wavefunction dL dR dp0 dp1 dq0 dq1 f)
             [2; 3]%nat [2; 3]%nat)).
Proof.
  unfold tensordot. simpl. unfold tensordot_axes. simpl.
  rewrite bool_decide_eq_true_2 by reflexivity. reflexivity.
Qed.

Lemma gate_step_scales (th c : list nat → F) :
  (∀ l r a b c0 c1, (l < dL)%nat → (r < dR)%nat → (a < dp0)%nat → (b < dp1)%nat →
     (c0 < dq0)%nat → (c1 < dq1)%nat →
     th [l; r; a; b; c0; c1] = Fmul (nth l SL F0) (c [l; r; a; b; c0; c1])) →
  ∀ a b l r c0 c1, (a < dp0)%nat → (b < dp1)%nat → (l < dL)%nat → (r < dR)%nat →
     (c0 < dq0)%nat → (c1 < dq1)%nat →
     contract_data (bond_gate dp0 dp1 u) (wavefunction dL dR dp0 dp1 dq0 dq1 th)
       [2; 3]%nat [2; 3]%nat [a; b; l; r; c0; c1]
     = Fmul (nth l SL F0)
         (contract_data (bond_gate dp0 dp1 u) (wavefunction dL dR dp0 dp1 dq0 dq1 c)
            [2; 3]%nat [2; 3]%nat [a; b; l; r; c0; c1]).
Proof using Ffield.
  intros Hth a b l r c0 c1 Ha Hb Hl Hr Hc0 Hc1.
  unfold contract_data, rank, place. simpl.
  rewrite <- (Fsum_mul_l Fring'). apply Fsum_ext. intros i Hi.
  rewrite <- (Fsum_mul_l Fring'). apply Fsum_ext. intros j Hj.
  rewrite Hth by assumption. ring.
Qed.

Lemma disentangler_step (Ud : Array F) (g : list nat → F) i j :
  get_leg_indices Ud ["q0*"; "q1*"] = Ok [i; j] →
  (i < rank Ud)%nat → (j < rank Ud)%nat →
  map leg_dim (pick (legs Ud) (Leg 0) [i; j]) = [dq0; dq1] →
  pick (labels Ud) "" (free_axes (rank Ud) [i; j]) = ["q0"; "q1"] →
  pick (legs Ud) (Leg 0) (free_axes (rank Ud) [i; j]) = [Leg dq0; Leg dq1] →
  tensordot Ud (mkArray legsB lblsB g) ["q0*"; "q1*"] ["q0"; "q1"]
  = Ok (mkArray legsA lblsA (contract_data Ud (mkArray legsB lblsB g) [i; j] [4; 5]%nat)).
Proof.
  intros Hidx Hi Hj Hdims Hlbls Hlegs.
  unfold tensordot. rewrite Hidx. simpl. unfold tensordot_axes.
  apply Nat.ltb_lt in Hi, Hj. simpl. rewrite Hi, Hj. simpl.
  simpl in Hdims. rewrite Hdims.
  rewrite bool_decide_eq_true_2 by reflexivity. simpl.
  rewrite Hlbls, Hlegs. reflexivity.
Qed.

Lemma disentangler_step_scales (Ud : Array F) (t1 c1 : list nat → F) i j :
  map leg_dim (pick (legs Ud) (Leg 0) [i; j]) = [dq0; dq1] →
  pick (labels Ud) "" (free_axes (rank Ud) [i; j]) = ["q0"; "q1"] →
  (∀ a b l r x y, (a < dp0)%nat → (b < dp1)%nat → (l < dL)%nat → (r < dR)%nat →
     (x < dq0)%nat → (y < dq1)%nat →
     t1 [a; b; l; r; x; y] = Fmul (nth l SL F0) (c1 [a; b; l; r; x; y])) →
  ∀ x y a b l r, (x < dq0)%nat → (y < dq1)%nat → (a < dp0)%nat → (b < dp1)%nat →
     (l < dL)%nat → (r < dR)%nat →
     contract_data Ud (mkArray legsB lblsB t1) [i; j] [4; 5]%nat [x; y; a; b; l; r]
     = Fmul (nth l SL F0)
         (contract_data Ud (mkArray legsB lblsB c1) [i; j] [4; 5]%nat [x; y; a; b; l; r]).
Proof using Ffield.
  intros Hdims Hlbls Hrel x y a b l r Hx Hy Ha Hb Hl Hr.
  assert (Hlen : length (free_axes (rank Ud) [i; j]) = 2%nat).
  { apply (f_equal length) in Hlbls. unfold pick in Hlbls.
    rewrite length_map in Hlbls. exact Hlbls. }
  unfold contract_data. rewrite Hlen, Hdims. simpl.
  rewrite <- (Fsum_mul_l Fring'). apply Fsum_ext. intros p Hp.
  rewrite <- (Fsum_mul_l Fring'). apply Fsum_ext. intros q Hq.
  unfold place at 2 4. simpl. rewrite Hrel by assumption. ring.
Qed.
End LeftTensorFacts.

Section LeftTensorEquivalence.
Context {F : Type} {scalar : Scalar F}.

End LeftTensorEquivalence.

Transparent unravel ravel.

Lemma Qc_scalar_field : scalar_field Qc.
Proof.
  split; [|split].
  - exact Qcrt.
  - intros x y. simpl. unfold Qcdiv. rewrite Qcmult_1_l. reflexivity.
  - intros y Hy. simpl. unfold Qcdiv. rewrite Qcmult_1_l. apply Qcmult_inv_l. exact Hy.
Qed.


(** * Further properties of the methods *)

Local Open Scope Z_scope.

(** ** The outcomes of [update_bond] *)

Section UpdateBondOutcomes.
Context {F : Type} {scalar : Scalar F} {collab : Collaborators F}.

(** A method that only reads runs the rest of a bind from the object it
    was given. *)
Lemma bind_preserved_eq {A B} (m : M A) (f : A → M B) self :
  preserves m →
  (m ≫= f) self = match (m self).2 with
                  | Ok a => f a self
                  | Raise e => (self, Raise e)
                  end.
Proof.
  intros Hm. unfold mbind, M_bind.
  destruct (m self) as [s1 r] eqn:E. apply Hm in E. subst s1. destruct r; reflexivity.
Qed.

Lemma reads_run {A} (f : Engine → result A) self : (reads f self).2 = f self.
Proof. reflexivity. Qed.

Lemma lift_run {A} (r : result A) (self : Engine) : (lift r self).2 = r.
Proof. reflexivity. Qed.

Ltac run_reads :=
  rewrite !(bind_preserved_eq (reads _)) by apply preserves_reads; rewrite !reads_run.
Ltac run_lift :=
  rewrite !(bind_preserved_eq (lift _)) by apply preserves_lift; rewrite !lift_run.

(** Every call of [update_bond] either raises before its first write, or
    has computed the new weights and both new site tensors; then it
    writes all three and the outcome hangs on the accumulator lookup. *)
Lemma update_bond_cases i U_bond self :
  (∃ e, update_bond i U_bond self = (self, Raise e)) ∨
  ∃ theta U_disent U S' V renormalize C B_L B_R err,
    two_site_wavefunction i U_bond self = (self, Ok (theta, U_disent)) ∧
    svd_theta theta (TEBD_params self) ["vR"; "vL"] = Ok (U, S', V, err, renormalize) ∧
    (V' ← split_legs V [1%nat]; ireplace_labels V' ["p1"; "q1"] ["p"; "q"]) = Ok B_R ∧
    get_theta (psi self) (i - 1) 2 (Fin 0) = Ok C ∧
    stable_left_tensor U_bond U_disent theta V C renormalize = Ok B_L ∧
    update_bond i U_bond self
    = let written :=
        with_psi (λ p, set_B (set_B (set_SR p (i - 1) S') (i - 1) B_L "B") i B_R "B") self in
      match py_getitem (_trunc_err_bonds self) i with
      | Ok (k, old) =>
          (with_trunc_err_bonds (λ errs, <[k := trunc_add old err]> errs) written, Ok err)
      | Raise e => (written, Raise e)
      end.
Proof.
  unfold update_bond, two_site_wavefunction.
  run_reads.
  destruct (get_theta (psi self) (i - 1) 2 (Fin 1)) as [theta0|e]; [|left; eauto].
  run_lift.
  destruct (tensordot U_bond theta0 _ _) as [theta1|e]; [|left; eauto].
  rewrite !(bind_preserved_eq (disentangle _ _ _)) by apply disentangle_preserves.
  destruct (disentangle theta1 i U_bond self).2 as [[theta2 U_disent]|e]; [|left; eauto].
  run_lift.
  destruct (combine_legs theta2 _ _) as [theta|e]; [|left; eauto].
  run_reads.
  destruct (svd_theta theta _ _) as [[[[[U S'] V] err] renormalize]|e] eqn:Hsvd; [|left; eauto].
  run_lift.
  destruct (V' ← split_legs V [1%nat]; ireplace_labels V' ["p1"; "q1"] ["p"; "q"])
    as [B_R|e] eqn:HBR; [|left; eauto].
  run_reads.
  destruct (get_theta (psi self) (i - 1) 2 (Fin 0)) as [C0|e] eqn:HC0; [|left; eauto].
  unfold stable_left_tensor, recompose_left.
  run_lift.
  destruct (tensordot U_bond C0 _ _) as [C1|e] eqn:HC1; [|left; eauto].
  rewrite (bind_preserved_eq (match U_disent with Some _ => _ | None => _ end))
    by (destruct U_disent; [apply preserves_lift | apply preserves_ret]).
  assert (HC2 : (match U_disent with
                 | Some U_disent => lift (tensordot U_disent C1 ["q0*"; "q1*"] ["q0"; "q1"])
                 | None => mret C1
                 end self).2
                = match U_disent with
                  | Some U_disent => tensordot U_disent C1 ["q0*"; "q1*"] ["q0"; "q1"]
                  | None => Ok C1
                  end) by (destruct U_disent; reflexivity).
  rewrite HC2. clear HC2.
  destruct (match U_disent with Some _ => _ | None => _ end) as [C2|e] eqn:HC2; [|left; eauto].
  run_lift.
  destruct (get_leg theta 1) as [pipe|e] eqn:Hpipe; [|left; eauto].
  run_lift.
  destruct (combine_legs C2 _ _) as [C3|e] eqn:HC3; [|left; eauto].
  run_lift.
  destruct (tensordot C3 _ _ _) as [B_L0|e] eqn:HBL0; [|left; eauto].
  run_lift.
  destruct (ireplace_labels B_L0 _ _) as [B_L1|e] eqn:HBL1; [|left; eauto].
  right. exists theta, U_disent, U, S', V, renormalize, C0, (idiv_scalar B_L1 renormalize), B_R, err.
  split; [reflexivity|]. split; [exact Hsvd|]. split; [exact HBR|]. split; [reflexivity|].
  split.
  - unfold mbind, result_bind. rewrite HC1, HC2, Hpipe, HC3, HBL0, HBL1. reflexivity.
  - unfold mbind, M_bind, modify, reads, with_psi, with_trunc_err_bonds. simpl.
    destruct (py_getitem (_trunc_err_bonds self) i) as [[k old]|e]; reflexivity.
Qed.

Lemma py_index_Raise len i e : py_index len i = Raise e → e = IndexError.
Proof.
  unfold py_index. destruct (_ && _); [discriminate|]. destruct (_ && _); [discriminate|].
  intros [= <-]. reflexivity.
Qed.

Lemma py_getitem_Raise {A} (l : list A) i e :
  py_getitem l i = Raise e → e = IndexError ∧ py_index (length l) i = Raise IndexError.
Proof.
  unfold py_getitem. destruct (py_index (length l) i) as [k|e'] eqn:E; simpl.
  - apply py_index_lt in E. apply lookup_lt_is_Some_2 in E as [x ->]. discriminate.
  - intros [= <-]. pose proof (py_index_Raise _ _ _ E) as ->. auto.
Qed.

(** X1: a call of [update_bond(i, U_bond)] that returns leaves the engine
    with exactly this state: the bond weights right of site [i-1] are the
    kept weights [S] of the factorization, site [i-1] holds the left
    tensor of lines 106 to 117, site [i] holds the right factor [V] with
    its combined leg split and [p1], [q1] renamed [p], [q] (the three
    written in this order, in form ['B']), the accumulator of bond [i]
    has grown by the truncation error, and the parameters, [_U_param]
    and [verbose] are what they were. *)
Theorem update_bond_writes i U_bond self self' err :
  update_bond i U_bond self = (self', Ok err) →
  ∃ theta U_disent U S' V renormalize C B_L B_R k old,
    two_site_wavefunction i U_bond self = (self, Ok (theta, U_disent)) ∧
    svd_theta theta (TEBD_params self) ["vR"; "vL"] = Ok (U, S', V, err, renormalize) ∧
    (V' ← split_legs V [1%nat]; ireplace_labels V' ["p1"; "q1"] ["p"; "q"]) = Ok B_R ∧
    get_theta (psi self) (i - 1) 2 (Fin 0) = Ok C ∧
    stable_left_tensor U_bond U_disent theta V C renormalize = Ok B_L ∧
    py_getitem (_trunc_err_bonds self) i = Ok (k, old) ∧
    self' = mkEngine (set_B (set_B (set_SR (psi self) (i - 1) S') (i - 1) B_L "B") i B_R "B")
              (TEBD_params self) (_U_param self)
              (<[k := trunc_add old err]> (_trunc_err_bonds self)) (verbose self).
Proof.
  intros E.
  destruct (update_bond_cases i U_bond self)
    as [[e E']|(theta & Ud & U & S' & V & rn & C & B_L & B_R & err' & H1 & H2 & H3 & H4 & H5 & E')];
    rewrite E' in E; [discriminate|].
  simpl in E.
  destruct (py_getitem (_trunc_err_bonds self) i) as [[k old]|e] eqn:Hget; [|discriminate].
  injection E as <- <-.
  exists theta, Ud, U, S', V, rn, C, B_L, B_R, k, old. repeat (split; [assumption|]).
  split; reflexivity.
Qed.

(** X2: a call of [update_bond] that raises has either changed nothing,
    or it raised [IndexError] at the accumulator lookup of line 121, the
    bond index being out of range for [_trunc_err_bonds]; then the bond
    weights and both site tensors have been replaced as in a returning
    call and the accumulators are untouched. *)
Theorem update_bond_failure_modes i U_bond self self' e :
  update_bond i U_bond self = (self', Raise e) →
  self' = self ∨
  (e = IndexError ∧
   py_index (length (_trunc_err_bonds self)) i = Raise IndexError ∧
   ∃ theta U_disent U S' V err renormalize C B_L B_R,
     two_site_wavefunction i U_bond self = (self, Ok (theta, U_disent)) ∧
     svd_theta theta (TEBD_params self) ["vR"; "vL"] = Ok (U, S', V, err, renormalize) ∧
     (V' ← split_legs V [1%nat]; ireplace_labels V' ["p1"; "q1"] ["p"; "q"]) = Ok B_R ∧
     get_theta (psi self) (i - 1) 2 (Fin 0) = Ok C ∧
     stable_left_tensor U_bond U_disent theta V C renormalize = Ok B_L ∧
     self' = mkEngine (set_B (set_B (set_SR (psi self) (i - 1) S') (i - 1) B_L "B") i B_R "B")
               (TEBD_params self) (_U_param self) (_trunc_err_bonds self) (verbose self)).
Proof.
  intros E.
  destruct (update_bond_cases i U_bond self)
    as [[e' E']|(theta & Ud & U & S' & V & rn & C & B_L & B_R & err' & H1 & H2 & H3 & H4 & H5 & E')];
    rewrite E' in E.
  - left. congruence.
  - right. simpl in E.
    destruct (py_getitem (_trunc_err_bonds self) i) as [[k old]|e'] eqn:Hget; [discriminate|].
    injection E as <- <-. apply py_getitem_Raise in Hget as [-> Hidx].
    split; [reflexivity|]. split; [assumption|].
    exists theta, Ud, U, S', V, err', rn, C, B_L, B_R. repeat (split; [assumption|]). reflexivity.
Qed.

(** X3: whether it returns or raises, [update_bond(i, U_bond)] never
    changes [TEBD_params], [_U_param] or [verbose], never changes the
    number of accumulators in [_trunc_err_bonds], and never changes an
    accumulator other than the one at the position index [i] selects. *)
Theorem update_bond_frame i U_bond self :
  let self' := (update_bond i U_bond self).1 in
  TEBD_params self' = TEBD_params self ∧
  _U_param self' = _U_param self ∧
  verbose self' = verbose self ∧
  length (_trunc_err_bonds self') = length (_trunc_err_bonds self) ∧
  ∀ k, py_index (length (_trunc_err_bonds self)) i ≠ Ok k →
       _trunc_err_bonds self' !! k = _trunc_err_bonds self !! k.
Proof.
  simpl.
  destruct (update_bond_cases i U_bond self)
    as [[e' E']|(theta & Ud & U & S' & V & rn & C & B_L & B_R & err' & _ & _ & _ & _ & _ & E')];
    rewrite E'.
  - simpl. auto.
  - simpl. destruct (py_getitem (_trunc_err_bonds self) i) as [[k old]|e'] eqn:Hget; simpl.
    + apply py_getitem_inv in Hget as [Hidx _].
      repeat (split; [reflexivity|]). split; [apply length_insert|].
      intros k' Hk'. apply list_lookup_insert_ne. congruence.
    + auto.
Qed.

(** X4: two returning calls of [update_bond] on the same bond, one after
    the other, leave in the accumulator of that bond the old value plus
    the error of the first call plus the error of the second. *)
Theorem update_bond_twice_accumulates i U1 U2 self self1 self2 err1 err2 k old :
  update_bond i U1 self = (self1, Ok err1) →
  update_bond i U2 self1 = (self2, Ok err2) →
  py_getitem (_trunc_err_bonds self) i = Ok (k, old) →
  py_getitem (_trunc_err_bonds self2) i = Ok (k, trunc_add (trunc_add old err1) err2).
Proof.
  intros E1 E2 Hget.
  apply update_bond_Ok_inv in E1 as (? & ? & ? & ? & ? & ? & k1 & old1 & _ & _ & Hg1 & Hs1).
  apply update_bond_Ok_inv in E2 as (? & ? & ? & ? & ? & ? & k2 & old2 & _ & _ & Hg2 & Hs2).
  rewrite Hget in Hg1. injection Hg1 as <- <-.
  apply py_getitem_inv in Hget as [Hidx Hold].
  pose proof (py_index_lt _ _ _ Hidx) as Hlt.
  rewrite Hs1 in Hg2. apply py_getitem_inv in Hg2 as [Hidx2 Hold2].
  rewrite length_insert, Hidx in Hidx2. injection Hidx2 as <-.
  rewrite list_lookup_insert_eq in Hold2 by assumption. injection Hold2 as <-.
  rewrite Hs2, Hs1. unfold py_getitem. rewrite !length_insert, Hidx. simpl.
  rewrite list_lookup_insert_eq by (rewrite length_insert; assumption). reflexivity.
Qed.
End UpdateBondOutcomes.

(** A returning update of bond 1 of the chain. *)
Lemma update_bond_writes_witness :
  ∃ B_L B_R,
    (update_bond 1 chain_gate (chain_engine ∅ 0)).1
    = mkEngine (collab := Chain_Collaborators)
        (chain_set_B (chain_set_B (chain_set_SR (mkChain [2; 3] [1; 1; 1] []) 0 [1]) 0 B_L "B")
           1 B_R "B")
        ∅ ∅ [5; 7; 9] 0.
Proof.
  destruct (update_bond_writes 1 chain_gate (chain_engine ∅ 0)
              (update_bond 1 chain_gate (chain_engine ∅ 0)).1 0)
    as (theta & Ud & U & S' & V & rn & C & B_L & B_R & k & old
        & Hth & Hsvd & HBR & HC & HBL & Hget & Hself).
  { vm_compute. reflexivity. }
  exists B_L, B_R. rewrite Hself.
  unfold two_site_wavefunction, mbind, M_bind, reads, lift in Hth. simpl in Hth.
  injection Hth as <- <-.
  injection Hsvd as _ <- _ _. injection Hget as <- <-. reflexivity.
Defined.

(** The update of a bond the accumulator list does not have. *)
Lemma update_bond_failure_modes_witness :
  (update_bond 5 chain_gate (chain_engine ∅ 0)).2 = Raise IndexError ∧
  ((update_bond 5 chain_gate (chain_engine ∅ 0)).1 = chain_engine ∅ 0 ∨
   py_index 3 5 = Raise IndexError).
Proof.
  split; [vm_compute; reflexivity|].
  destruct (update_bond_failure_modes 5 chain_gate (chain_engine ∅ 0)
              (update_bond 5 chain_gate (chain_engine ∅ 0)).1 IndexError)
    as [H|(_ & H & _)].
  - vm_compute. reflexivity.
  - left. exact H.
  - right. exact H.
Defined.

Lemma update_bond_twice_accumulates_witness :
  py_getitem
    (_trunc_err_bonds
       (update_bond 1 chain_gate (update_bond 1 chain_gate (chain_engine ∅ 0)).1).1) 1
  = Ok (1%nat, 7 + 0 + 0).
Proof.
  apply (update_bond_twice_accumulates 1 chain_gate chain_gate (chain_engine ∅ 0)
           (update_bond 1 chain_gate (chain_engine ∅ 0)).1
           (update_bond 1 chain_gate (update_bond 1 chain_gate (chain_engine ∅ 0)).1).1
           0 0 1%nat 7).
  - vm_compute. reflexivity.
  - vm_compute. reflexivity.
  - reflexivity.
Defined.
(** ** The disentangler hook *)

Section DisentangleOutcomes.
Context {F : Type} {scalar : Scalar F} {collab : Collaborators F}.

(** X7: the disentangler hook only computes: [disentangle],
    [disentangle_backwards], [disentangle_renyi] and
    [disentangle_renyi_iter] leave the engine object exactly as they
    found it, whether they return or raise. *)
Theorem disentangle_is_read_only theta i U_bond U self :
  (disentangle theta i U_bond self).1 = self ∧
  (disentangle_backwards theta U_bond self).1 = self ∧
  (disentangle_renyi theta self).1 = self ∧
  (disentangle_renyi_iter theta U self).1 = self.
Proof.
  assert (H : ∀ A (m : M A), preserves m → (m self).1 = self).
  { intros A m Hm. destruct (m self) as [s r] eqn:E. apply Hm in E. exact E. }
  repeat split; apply H.
  - apply disentangle_preserves.
  - apply disentangle_backwards_preserves.
  - apply disentangle_renyi_preserves.
  - apply disentangle_renyi_iter_preserves.
Qed.

(** X8: what [disentangle] returns is what its docstring promises: when
    it hands back a unitary [U], the wavefunction it hands back is
    [npc.tensordot(U, theta, axes=[['q0*', 'q1*'], ['q0', 'q1']])], and
    when it hands back [None] the wavefunction is the one it was given. *)
Theorem disentangle_hands_back_applied_unitary theta i U_bond self self' theta' U_disent :
  disentangle theta i U_bond self = (self', Ok (theta', U_disent)) →
  (∀ U, U_disent = Some U → tensordot U theta ["q0*"; "q1*"] ["q0"; "q1"] = Ok theta') ∧
  (U_disent = None → theta' = theta).
Proof.
  intros E. apply disentangle_applies_unitary in E.
  split; [intros U -> | intros ->]; exact E.
Qed.

(** X10: with [disentangle = 'backwards'] on an engine whose [_U_param]
    has no entry ['type_evo'] (as before the first [calc_U]), the hook
    raises [KeyError('type_evo')] and changes nothing. *)
Theorem disentangle_backwards_needs_type_evo theta i U_bond self :
  TEBD_params self !! "disentangle" = Some (PyStr "backwards") →
  _U_param self !! "type_evo" = None →
  disentangle theta i U_bond self = (self, Raise (KeyError "type_evo")).
Proof.
  intros Hd Hevo.
  unfold disentangle, mbind, M_bind, reads, get_parameter. rewrite Hd. simpl.
  unfold disentangle_backwards, mbind, M_bind, reads. rewrite Hevo. reflexivity.
Qed.

(** X11: under imaginary-time evolution the backwards disentangler is
    switched off: with [disentangle = 'backwards'] and
    [_U_param['type_evo'] == 'imag'] the hook hands back the wavefunction
    it was given and no unitary, whatever the gate. *)
Theorem disentangle_backwards_imaginary_is_identity theta i U_bond self :
  TEBD_params self !! "disentangle" = Some (PyStr "backwards") →
  _U_param self !! "type_evo" = Some (PyStr "imag") →
  disentangle theta i U_bond self = (self, Ok (theta, None)).
Proof.
  intros Hd Hevo.
  unfold disentangle, mbind, M_bind, reads, get_parameter. rewrite Hd. simpl.
  unfold disentangle_backwards, mbind, M_bind, reads. rewrite Hevo. reflexivity.
Qed.

(** *** The loop of the Renyi optimizer *)

Lemma pure_lift {A} (r : result A) : pure_method (lift r).
Proof. exists r. reflexivity. Qed.

Lemma pure_ret {A} (a : A) : pure_method (mret a : M A).
Proof. exists (Ok a). reflexivity. Qed.

Lemma pure_bind {A B} (m : M A) (f : A → M B) :
  pure_method m → (∀ a, pure_method (f a)) → pure_method (m ≫= f).
Proof.
  intros [r Hr] Hf. destruct r as [a|e].
  - destruct (Hf a) as [r' Hr']. exists r'. intros self.
    unfold mbind, M_bind. rewrite Hr. apply Hr'.
  - exists (Raise e). intros self. unfold mbind, M_bind. rewrite Hr. reflexivity.
Qed.

Lemma disentangle_renyi_iter_pure theta U : pure_method (disentangle_renyi_iter theta U).
Proof.
  unfold disentangle_renyi_iter.
  repeat first [ apply pure_lift | apply pure_ret | apply pure_bind; [|intros ?]
               | match goal with |- pure_method (let '(_, _) := ?x in _) => destruct x end ].
Qed.

Lemma renyi_loop_pure theta eps n : ∀ i v, pure_method (renyi_loop theta eps n i v).
Proof.
  induction n as [|n IH]; intros i v; simpl.
  - apply pure_ret.
  - apply pure_bind; [apply disentangle_renyi_iter_pure|]. intros [S' U].
    destruct (py_float_lt _ _); [apply pure_ret | apply IH].
Qed.

(** Once the body has run, [i] and [S] are bound; the loop variable stays
    below the bound, and leaving before the last iteration means that the
    test has succeeded. *)
Lemma renyi_loop_exit theta eps n : ∀ i v self self' v',
  renyi_loop theta eps (S n) i v self = (self', Ok v') →
  ∃ k S', var_i v' = Some k ∧ var_S v' = Some S' ∧ (i ≤ k < i + S n)%nat ∧
    ((k + 1 < i + S n)%nat → py_float_lt (fl_abs (fl_sub (var_Sold v') S')) eps = true).
Proof.
  induction n as [|n IH]; intros i v self self' v' E.
  - simpl in E. apply bind_run in E as [(e & _ & [=])|(s1 & [S1 U1] & _ & E)].
    destruct (py_float_lt _ _) eqn:Hlt.
    + injection E as _ <-. simpl. exists i, S1. repeat split; auto; lia.
    + injection E as _ <-. simpl. exists i, (var_Sold v). repeat split; auto; lia.
  - change (renyi_loop theta eps (S (S n)) i v)
      with ('(S', U) ← disentangle_renyi_iter theta (var_U v);
            if py_float_lt (fl_abs (fl_sub (var_Sold v) S')) eps
            then mret (mkRenyiVars U (var_Sold v) (Some S') (Some i))
            else renyi_loop theta eps (S n) (S i)
                   (mkRenyiVars U S' (Some (var_Sold v)) (Some i))) in E.
    apply bind_run in E as [(e & _ & [=])|(s1 & [S1 U1] & _ & E)].
    destruct (py_float_lt _ _) eqn:Hlt.
    + injection E as _ <-. simpl. exists i, S1. repeat split; auto; lia.
    + apply IH in E as (k & S2 & Hi & HS & Hk & Hb).
      exists k, S2. repeat split; auto; try lia. intros Hlt'. apply Hb. lia.
Qed.

(** The first test of the loop, against [Sold = inf], fails whatever the
    entropy, unless the threshold is a string. *)
Lemma first_test_fails S' eps :
  (∀ s, eps ≠ PyStr s) → py_float_lt (fl_abs (fl_sub PInf S')) eps = false.
Proof.
  intros Hstr. destruct eps as [|s|z|y]; simpl.
  - reflexivity.
  - exfalso. eapply Hstr. reflexivity.
  - destruct S'; reflexivity.
  - destruct S'; simpl; try reflexivity; destruct y; reflexivity.
Qed.

(** X17: the loop of [disentangle_renyi] (lines 206 to 211), started with
    [Sold = inf] and nothing else bound, when no iteration raises: with
    [max_iter = 0] it binds nothing; otherwise it ends with [i] and [S]
    bound and [i < max_iter], so the body has run at most [max_iter]
    times; when it ends before the last allowed iteration the values of
    [Sold] and [S] differ by less than [eps]; and with [max_iter >= 2]
    and an [eps] that is not a string the body has run at least twice,
    the first test being against [Sold = inf]. *)
Theorem renyi_loop_iterations theta eps n U self self' v :
  renyi_loop theta eps n 0 (mkRenyiVars U PInf None None) self = (self', Ok v) →
  (n = 0%nat → v = mkRenyiVars U PInf None None) ∧
  ((1 ≤ n)%nat →
   ∃ k S', var_i v = Some k ∧ var_S v = Some S' ∧ (k < n)%nat ∧
     ((k + 1 < n)%nat → py_float_lt (fl_abs (fl_sub (var_Sold v) S')) eps = true) ∧
     ((2 ≤ n)%nat → (∀ s, eps ≠ PyStr s) → (1 ≤ k)%nat)).
Proof.
  intros E. split.
  - intros ->. simpl in E. injection E as _ <-. reflexivity.
  - intros Hn. destruct n as [|n]; [lia|].
    pose proof (renyi_loop_exit _ _ _ _ _ _ _ _ E) as (k & S' & Hi & HS & Hk & Hb).
    exists k, S'. repeat split; auto; try lia.
    intros Hn2 Hstr. destruct n as [|n]; [lia|].
    change (renyi_loop theta eps (S (S n)) 0 (mkRenyiVars U PInf None None))
      with ('(S', U') ← disentangle_renyi_iter theta U;
            if py_float_lt (fl_abs (fl_sub PInf S')) eps
            then mret (mkRenyiVars U' PInf (Some S') (Some 0%nat))
            else renyi_loop theta eps (S n) 1
                   (mkRenyiVars U' S' (Some PInf) (Some 0%nat))) in E.
    apply bind_run in E as [(e & _ & [=])|(s1 & [S1 U1] & _ & E)].
    rewrite first_test_fails in E by assumption.
    apply renyi_loop_exit in E as (k' & S2 & Hi' & _ & Hk' & _).
    rewrite Hi in Hi'. injection Hi' as <-. lia.
Qed.

(** X16: with [disent_max_iter >= 1], what [disentangle_renyi] returns or
    raises depends on the wavefunction and on [TEBD_params] only: two
    engines with the same parameters give the same outcome, whatever
    their [verbose] (the report line of lines 213 and 214 then finds
    [i] and [S] bound). *)
Theorem disentangle_renyi_ignores_verbose theta self1 self2 z :
  TEBD_params self1 = TEBD_params self2 →
  get_parameter (TEBD_params self1) "disent_max_iter" (PyInt 20) = PyInt z →
  1 ≤ z →
  (disentangle_renyi theta self1).2 = (disentangle_renyi theta self2).2.
Proof.
  intros Hp Hz Hz1.
  unfold disentangle_renyi, mbind, M_bind, reads, lift. simpl.
  rewrite <- Hp, Hz. simpl.
  destruct (result_bind _ _ _ (eye_like theta "q0")) as [e0|e]; [|reflexivity].
  destruct (result_bind _ _ _ (eye_like theta "q1")) as [e1|e]; [|reflexivity].
  set (eps := get_parameter _ "disent_eps" _).
  set (v0 := mkRenyiVars _ _ _ _).
  destruct ((- 2 ^ 63 <=? z) && (z <? 2 ^ 63)); [|reflexivity].
  destruct (Z.to_nat z) as [|n] eqn:En; [lia|].
  destruct (renyi_loop_pure theta eps (S n) 0%nat v0) as [r Hr].
  rewrite !Hr. destruct r as [v|e]; [|reflexivity].
  pose proof (Hr self1) as E.
  apply renyi_loop_exit in E as (k & S' & Hi & HS & _).
  rewrite Hi, HS.
  destruct (tensordot _ _ _ _); [|reflexivity].
  destruct (py_ge (verbose self1) 10), (py_ge (verbose self2) 10); reflexivity.
Qed.
End DisentangleOutcomes.

Lemma disentangle_hands_back_applied_unitary_witness :
  ∃ theta' U,
    disentangle chain_theta 1 chain_gate (backwards_engine (Some "real"))
    = (backwards_engine (Some "real"), Ok (theta', Some U)) ∧
    tensordot U chain_theta ["q0*"; "q1*"] ["q0"; "q1"] = Ok theta'.
Proof.
  eexists _, _. split; [vm_compute; reflexivity|].
  match goal with |- tensordot ?U _ _ _ = Ok ?t =>
    assert (H : disentangle chain_theta 1 chain_gate (backwards_engine (Some "real"))
                = (backwards_engine (Some "real"), Ok (t, Some U)))
      by (vm_compute; reflexivity);
    exact (proj1 (disentangle_hands_back_applied_unitary _ _ _ _ _ _ _ H) U eq_refl)
  end.
Defined.

Lemma disentangle_backwards_needs_type_evo_witness :
  disentangle chain_theta 1 chain_gate (backwards_engine None)
  = (backwards_engine None, Raise (KeyError "type_evo")).
Proof.
  apply (disentangle_backwards_needs_type_evo chain_theta 1 chain_gate (backwards_engine None));
    reflexivity.
Defined.

Lemma disentangle_backwards_imaginary_is_identity_witness :
  disentangle chain_theta 1 chain_gate (backwards_engine (Some "imag"))
  = (backwards_engine (Some "imag"), Ok (chain_theta, None)).
Proof.
  apply (disentangle_backwards_imaginary_is_identity chain_theta 1 chain_gate
           (backwards_engine (Some "imag"))); reflexivity.
Defined.

(** Two iterations on the chain, from the identity. *)
Lemma renyi_loop_iterations_witness :
  ∃ v, renyi_loop chain_theta (PyFloat (Fin (1 # 10))) 2 0
         (mkRenyiVars (scalar_array [Leg 1; Leg 1; Leg 1; Leg 1] ["q0"; "q0*"; "q1"; "q1*"] 1)
            PInf None None) (chain_engine ∅ 0) = (chain_engine ∅ 0, Ok v)
       ∧ var_i v = Some 1%nat.
Proof.
  eexists. split; [vm_compute; reflexivity|].
  match goal with |- var_i ?v = _ =>
    assert (E : renyi_loop chain_theta (PyFloat (Fin (1 # 10))) 2 0
                  (mkRenyiVars (scalar_array [Leg 1; Leg 1; Leg 1; Leg 1]
                                  ["q0"; "q0*"; "q1"; "q1*"] 1) PInf None None)
                  (chain_engine ∅ 0) = (chain_engine ∅ 0, Ok v))
      by (vm_compute; reflexivity)
  end.
  destruct (renyi_loop_iterations _ _ _ _ _ _ _ E) as [_ H].
  destruct (H ltac:(lia)) as (k & S' & Hi & _ & Hk & _ & H2).
  assert (1 ≤ k)%nat by (apply H2; [lia | discriminate]).
  rewrite Hi. f_equal. lia.
Defined.

Lemma disentangle_renyi_ignores_verbose_witness :
  (disentangle_renyi chain_theta (chain_engine {["disentangle" := PyStr "renyi"]} 0)).2
  = (disentangle_renyi chain_theta (chain_engine {["disentangle" := PyStr "renyi"]} 10)).2.
Proof.
  apply (disentangle_renyi_ignores_verbose chain_theta
           (chain_engine {["disentangle" := PyStr "renyi"]} 0)
           (chain_engine {["disentangle" := PyStr "renyi"]} 10) 20);
    [reflexivity | reflexivity | lia].
Defined.

(** ** The step count of [run_imaginary] *)

(** Adding a half to a non-negative quotient and truncating picks the
    multiple of the divisor that is closest to the dividend. *)
Lemma Qtrunc_half_closest (x y : Q) (m : Z) :
  (0 <= x)%Q → (0 < y)%Q →
  (Qabs (inject_Z (Qtrunc (x / y + (1 # 2))) * y - x) <= Qabs (inject_Z m * y - x))%Q.
Proof.
  intros Hx Hy.
  assert (Hq : (0 <= x / y)%Q).
  { apply Qle_shift_div_l; [assumption|]. lra. }
  rewrite Qtrunc_nonneg by lra.
  set (n := Qfloor (x / y + (1 # 2))).
  pose proof (Qfloor_le (x / y + (1 # 2))) as Hlo.
  pose proof (Qlt_floor (x / y + (1 # 2))) as Hhi. fold n in Hlo, Hhi.
  assert (E : ((x / y + (1 # 2)) * y == x + y * (1 # 2))%Q) by (field; lra).
  assert (H1 : (inject_Z n * y <= (x / y + (1 # 2)) * y)%Q)
    by (apply Qmult_le_compat_r; lra).
  assert (H2 : ((x / y + (1 # 2)) * y < inject_Z (n + 1) * y)%Q)
    by (apply Qmult_lt_compat_r; assumption).
  rewrite E in H1, H2.
  rewrite inject_Z_plus in H2. change (inject_Z 1) with 1%Q in H2.
  destruct (Z_lt_le_dec m n) as [Hm|Hm].
  - assert (Hm' : (inject_Z m * y <= (inject_Z n - 1) * y)%Q).
    { apply Qmult_le_compat_r; [|lra].
      assert (H : m <= n - 1) by lia. rewrite Zle_Qle in H.
      unfold Z.sub in H. rewrite inject_Z_plus, inject_Z_opp in H.
      change (inject_Z 1) with 1%Q in H. lra. }
    apply Qabs_case; intros; apply Qabs_case; intros; lra.
  - destruct (Z.eq_dec m n) as [->|Hne]; [apply Qle_refl|].
    assert (Hm' : ((inject_Z n + 1) * y <= inject_Z m * y)%Q).
    { apply Qmult_le_compat_r; [|lra].
      assert (H : n + 1 <= m) by lia. rewrite Zle_Qle in H.
      rewrite inject_Z_plus in H. change (inject_Z 1) with 1%Q in H. lra. }
    apply Qabs_case; intros; apply Qabs_case; intros; lra.
Qed.

Lemma Qtrunc_half_nonneg (q : Q) : (0 <= q)%Q → 0 ≤ Qtrunc (q + (1 # 2)).
Proof.
  intros Hq. rewrite Qtrunc_nonneg by lra.
  assert (H : (inject_Z 0 <= q + (1 # 2))%Q) by (change (inject_Z 0) with 0%Q; lra).
  apply Qfloor_resp_le in H. rewrite Qfloor_Z in H. exact H.
Qed.

Section DriverOutcomes.
Context {F : Type} {scalar : Scalar F} {collab : Collaborators F} {inherited : Inherited}.


(** X19: with a time step [dt] that is zero, the integer [0] or the float
    [0.0], and a [beta] that is a float or an integer within the range of
    the doubles, [run_imaginary] raises [ZeroDivisionError], but only
    after [calc_U] has run: the engine is left as [calc_U] left it, and
    [update] is never called. *)
Theorem run_imaginary_zero_dt beta self x s1 :
  py_float beta = Ok x →
  (get_parameter (TEBD_params self) "dt" (PyFloat (round_double (1 # 10))) = PyInt 0
   ∨ ∃ y, get_parameter (TEBD_params self) "dt" (PyFloat (round_double (1 # 10)))
          = PyFloat (Fin y) ∧ (y == 0)%Q) →
  calc_U (get_parameter (TEBD_params self) "order" (PyInt 2))
         (get_parameter (TEBD_params self) "dt" (PyFloat (round_double (1 # 10)))) "imag" self
  = (s1, Ok tt) →
  run_imaginary beta self = (s1, Raise ZeroDivisionError).
Proof.
  intros Hb Hd Hc.
  unfold run_imaginary, mbind, M_bind, reads, lift. rewrite Hc.
  assert (HN : N_steps beta (get_parameter (TEBD_params self) "dt"
                               (PyFloat (round_double (1 # 10))))
               = Raise ZeroDivisionError); [|rewrite HN; reflexivity].
  unfold N_steps.
  destruct Hd as [-> | (y & -> & Hy)].
  - destruct beta as [|s|z|b]; try discriminate Hb.
    + reflexivity.
    + injection Hb as ->. unfold py_truediv, py_float. simpl. destruct x; reflexivity.
  - assert (Hdiv : py_truediv beta (PyFloat (Fin y)) = Raise ZeroDivisionError).
    { apply Qeq_bool_iff in Hy.
      destruct beta as [|s|z|b]; try discriminate Hb;
        change (py_truediv ?a ?b) with (x ← py_float a; y ← py_float b; fl_div x y);
        rewrite Hb; simpl; rewrite Hy; reflexivity. }
    rewrite Hdiv. reflexivity.
Qed.

(** X20: with an infinite [beta] and a finite non-zero time step,
    [run_imaginary] raises [OverflowError] (from [int] of an infinite
    float) after [calc_U] has run, and [update] is never called. *)
Theorem run_imaginary_infinite_beta beta self y s1 :
  beta = PyFloat PInf ∨ beta = PyFloat NInf →
  py_float (get_parameter (TEBD_params self) "dt" (PyFloat (round_double (1 # 10))))
  = Ok (Fin y) →
  ¬ (y == 0)%Q →
  calc_U (get_parameter (TEBD_params self) "order" (PyInt 2))
         (get_parameter (TEBD_params self) "dt" (PyFloat (round_double (1 # 10)))) "imag" self
  = (s1, Ok tt) →
  run_imaginary beta self = (s1, Raise OverflowError).
Proof.
  intros Hb Hd Hy Hc.
  unfold run_imaginary, mbind, M_bind, reads, lift. rewrite Hc.
  assert (HN : N_steps beta (get_parameter (TEBD_params self) "dt"
                               (PyFloat (round_double (1 # 10))))
               = Raise OverflowError); [|rewrite HN; reflexivity].
  unfold N_steps.
  destruct (Qeq_bool y 0) eqn:E; [apply Qeq_bool_iff in E; contradiction|].
  destruct (get_parameter (TEBD_params self) "dt" (PyFloat (round_double (1 # 10))))
    as [|s|z|d] eqn:Hdt; try discriminate Hd;
    (destruct Hb as [-> | ->];
     change (py_truediv ?a ?b) with (x ← py_float a; y ← py_float b; fl_div x y);
     rewrite Hd; simpl; rewrite E; simpl; destruct (Qltb 0 y); reflexivity).
Qed.
End DriverOutcomes.


Lemma run_imaginary_zero_dt_witness :
  run_imaginary (PyInt 1) (chain_engine {["dt" := PyFloat (Fin 0)]} 0)
  = (mkEngine (collab := Chain_Collaborators)
       (mkChain [2; 3] [1; 1; 1] [EvCalcU (PyInt 2) (PyFloat (Fin 0)) "imag"])
       {["dt" := PyFloat (Fin 0)]} ∅ [5; 7; 9] 0,
     Raise ZeroDivisionError).
Proof.
  apply (run_imaginary_zero_dt (PyInt 1) (chain_engine {["dt" := PyFloat (Fin 0)]} 0) (Fin 1)).
  - vm_compute. reflexivity.
  - right. exists 0%Q. split; reflexivity.
  - reflexivity.
Defined.

Lemma run_imaginary_infinite_beta_witness :
  run_imaginary (PyFloat PInf) (chain_engine ∅ 0)
  = (mkEngine (collab := Chain_Collaborators)
       (mkChain [2; 3] [1; 1; 1] [EvCalcU (PyInt 2) (PyFloat (round_double (1 # 10))) "imag"])
       ∅ ∅ [5; 7; 9] 0,
     Raise OverflowError).
Proof.
  apply (run_imaginary_infinite_beta (PyFloat PInf) (chain_engine ∅ 0)
           (3602879701896397 # 36028797018963968));
    [left; reflexivity | vm_compute; reflexivity | discriminate | reflexivity].
Defined.

(** ** The tensors of a bond update, leg by leg *)

Local Open Scope nat_scope.

Opaque unravel ravel.

(** Runs the leg bookkeeping of arrays whose legs and labels are known,
    without touching the contractions. *)
Ltac run_legs :=
  repeat (progress (
    unfold get_leg, combine_legs, make_pipe, ireplace_labels, split_legs, conj, idiv_scalar,
           rank, mbind, result_bind, py_index in *;
    simpl in *;
    rewrite ?Nat.eqb_refl, ?(bool_decide_eq_true_2 _ eq_refl) in *)).

(** Runs the tensor operations on arrays whose legs and labels are known. *)
Ltac run_tensor :=
  repeat (progress (
    unfold get_leg, combine_legs, make_pipe, tensordot, tensordot_axes, ireplace_labels,
           iscale_axis, split_legs, conj, idiv_scalar, eye_like, set_leg_labels, outer, inner,
           rank, mbind, result_bind, py_index in *;
    simpl in *;
    rewrite ?Nat.eqb_refl, ?(bool_decide_eq_true_2 _ eq_refl) in *)).

Ltac range_of Hr :=
  unfold in_range in Hr; simpl in Hr;
  repeat match goal with H : Forall2 _ (_ :: _) (_ :: _) |- _ =>
           apply Forall2_cons_1 in H as [? H] end.

Section StoredTensors.
Context {F : Type} {scalar : Scalar F} {collab : Collaborators F}.

(** The right factor with its combined leg split and relabelled. *)
Lemma split_right_factor (V B_R : Array F) chi dR dp1 dq1 :
  legs V = [Leg chi; LegPipe [Leg dR; Leg dp1; Leg dq1]] →
  labels V = ["vL"; "(vR.p1.q1)"] →
  (V' ← split_legs V [1]; ireplace_labels V' ["p1"; "q1"] ["p"; "q"]) = Ok B_R →
  legs B_R = [Leg chi; Leg dR; Leg dp1; Leg dq1] ∧
  labels B_R = ["vL"; "vR"; "p"; "q"] ∧
  ∀ k r b d, data B_R [k; r; b; d] = data V [k; ravel [dR; dp1; dq1] [r; b; d]].
Proof.
  destruct V as [lg lb vv]. simpl. intros -> -> E. run_tensor. injection E as <-.
  split; [reflexivity|]. split; [reflexivity|]. intros k r b d. reflexivity.
Qed.

(** X6: the tensor a returning [update_bond(i, U_bond)] stores at site
    [i] (lines 97 and 120) is the right factor [V] that [svd_theta] gave
    for the two-site wavefunction, with its combined leg split: when [V]
    has the legs [vL] and [(vR.p1.q1)], the stored tensor has the legs
    [vL], [vR], [p], [q], in this order, and its entry at [(k, r, b, d)]
    is the entry of [V] at row [k] and at the column that combines
    [(r, b, d)]. *)
Theorem update_bond_right_tensor i U_bond self self' err :
  update_bond i U_bond self = (self', Ok err) →
  ∃ theta U_disent U S' V renormalize B_L B_R,
    two_site_wavefunction i U_bond self = (self, Ok (theta, U_disent)) ∧
    svd_theta theta (TEBD_params self) ["vR"; "vL"] = Ok (U, S', V, err, renormalize) ∧
    psi self' = set_B (set_B (set_SR (psi self) (i - 1) S') (i - 1) B_L "B") i B_R "B" ∧
    ∀ chi dR dp1 dq1,
      legs V = [Leg chi; LegPipe [Leg dR; Leg dp1; Leg dq1]] →
      labels V = ["vL"; "(vR.p1.q1)"] →
      legs B_R = [Leg chi; Leg dR; Leg dp1; Leg dq1] ∧
      labels B_R = ["vL"; "vR"; "p"; "q"] ∧
      ∀ k r b d, data B_R [k; r; b; d] = data V [k; ravel [dR; dp1; dq1] [r; b; d]].
Proof.
  intros E.
  destruct (update_bond_cases i U_bond self)
    as [[e E']|(theta & Ud & U & S' & V & rn & C & B_L & B_R & err' & H1 & H2 & H3 & H4 & H5 & E')];
    rewrite E' in E; [discriminate|].
  cbv zeta in E.
  destruct (py_getitem (_trunc_err_bonds self) i) as [[k old]|e] eqn:Hget; [|discriminate].
  injection E as <- <-.
  exists theta, Ud, U, S', V, rn, B_L, B_R.
  split; [exact H1|]. split; [exact H2|]. split; [reflexivity|].
  intros chi dR dp1 dq1 Hl Hb. exact (split_right_factor V B_R chi dR dp1 dq1 Hl Hb H3).
Qed.

(** X12: the unitary the backwards disentangler hands back for a gate
    with the legs [p0], [p1], [p0*], [p1*] is the entrywise conjugate of
    the gate with these legs renamed [q0], [q1], [q0*], [q1*], the labels
    the docstring of [disentangle] promises; it contracts with the
    auxiliary legs of a wavefunction whose legs [q0], [q1] have the
    dimensions of the physical legs. *)
Theorem disentangle_backwards_conjugates_gate d0 d1 (u : list nat → F) theta self self' theta' U :
  disentangle_backwards theta (bond_gate d0 d1 u) self = (self', Ok (theta', Some U)) →
  U = mkArray [Leg d0; Leg d1; Leg d0; Leg d1] ["q0"; "q1"; "q0*"; "q1*"] (λ idx, Fconj (u idx))
  ∧ is_disentangler d0 d1 U.
Proof.
  intros E. unfold disentangle_backwards in E.
  apply bind_run in E as [(e & _ & [=])|(s1 & t & _ & E)].
  destruct (py_eq_str t "imag"); [discriminate|].
  apply bind_run in E as [(e & _ & [=])|(s2 & U' & EU & E)].
  apply bind_run in E as [(e & _ & [=])|(s3 & th & _ & E)].
  injection E as _ _ <-.
  unfold lift in EU. injection EU as _ EU. run_tensor. subst U'.
  split; [reflexivity|].
  exists 2, 3. unfold get_leg_indices, get_leg_index, rank. simpl.
  repeat split; try reflexivity; lia.
Qed.
End StoredTensors.

(** *** Sums over two indices *)

Section DoubleSums.
Context {F : Type} {scalar : Scalar F}.
Hypothesis Fring : scalar_ring F.
Hypothesis Fcj : conj_morphism F.
Let Fring' : ring_theory F0 F1 Fadd Fmul (λ x y, Fadd x (Fopp y)) Fopp eq := Fring.
Add Ring Fring_double : Fring'.

Local Abbreviation S2 n m f := (Fsum n (λ i, Fsum m (λ j, f i j))).

Lemma Fsum_conj n (f : nat → F) : Fconj (Fsum n f) = Fsum n (λ i, Fconj (f i)).
Proof using Fcj.
  destruct Fcj as (H0 & Hadd & _).
  induction n as [|n IH]; simpl; [exact H0|]. rewrite Hadd, IH. reflexivity.
Qed.

Lemma Fsum2_ext n m (f g : nat → nat → F) :
  (∀ i j, i < n → j < m → f i j = g i j) → S2 n m f = S2 n m g.
Proof. intros E. apply Fsum_ext. intros i Hi. apply Fsum_ext. intros j Hj. auto. Qed.

Lemma Fsum2_mul_l n m c (f : nat → nat → F) :
  S2 n m (λ i j, Fmul c (f i j)) = Fmul c (S2 n m f).
Proof using Fring.
  rewrite <- (Fsum_mul_l Fring). apply Fsum_ext. intros i _. apply (Fsum_mul_l Fring).
Qed.

Lemma Fsum2_mul_r n m c (f : nat → nat → F) :
  S2 n m (λ i j, Fmul (f i j) c) = Fmul (S2 n m f) c.
Proof using Fring.
  rewrite <- (Fsum_mul_r Fring). apply Fsum_ext. intros i _. apply (Fsum_mul_r Fring).
Qed.

Lemma Fsum2_swap n m p q (f : nat → nat → nat → nat → F) :
  S2 n m (λ i j, S2 p q (λ k l, f i j k l)) = S2 p q (λ k l, S2 n m (λ i j, f i j k l)).
Proof using Fring.
  rewrite (Fsum_ext n _ (λ i, Fsum p (λ k, Fsum m (λ j, Fsum q (λ l, f i j k l)))))
    by (intros; apply (Fsum_swap Fring)).
  rewrite (Fsum_swap Fring). apply Fsum_ext. intros k _.
  rewrite (Fsum_ext n _ (λ i, Fsum q (λ l, Fsum m (λ j, f i j k l))))
    by (intros; apply (Fsum_swap Fring)).
  apply (Fsum_swap Fring n q (λ i l, Fsum m (λ j, f i j k l))).
Qed.

Lemma Fsum2_conj n m (f : nat → nat → F) :
  Fconj (S2 n m f) = S2 n m (λ i j, Fconj (f i j)).
Proof using Fcj. rewrite Fsum_conj. apply Fsum_ext. intros i _. apply Fsum_conj. Qed.

(** Contracting two vectors with an isometry leaves their inner product
    as it was. *)
Lemma isometry_contract X Y C D (W : nat → nat → nat → nat → F) (G G' : nat → nat → F) :
  (∀ c d c' d', c < C → d < D → c' < C → d' < D →
     S2 X Y (λ x y, Fmul (W x y c d) (Fconj (W x y c' d'))) = Fmul (delta c c') (delta d d')) →
  S2 X Y (λ x y, Fmul (S2 C D (λ c d, Fmul (W x y c d) (G c d)))
                      (Fconj (S2 C D (λ c d, Fmul (W x y c d) (G' c d)))))
  = S2 C D (λ c d, Fmul (G c d) (Fconj (G' c d))).
Proof using Fring Fcj.
  intros Hiso. destruct Fcj as (_ & _ & Hmul).
  rewrite (Fsum2_ext X Y _ (λ x y, S2 C D (λ c d, S2 C D (λ c' d',
             Fmul (Fmul (G c d) (Fconj (G' c' d')))
                  (Fmul (W x y c d) (Fconj (W x y c' d'))))))).
  2:{ intros x y _ _. rewrite Fsum2_conj. rewrite <- Fsum2_mul_r.
      apply Fsum2_ext. intros c d _ _. rewrite <- Fsum2_mul_l.
      apply Fsum2_ext. intros c' d' _ _. rewrite Hmul. ring. }
  rewrite Fsum2_swap. apply Fsum2_ext. intros c d Hc Hd.
  rewrite Fsum2_swap.
  rewrite (Fsum2_ext C D _ (λ c' d',
             Fmul (Fconj (G' c' d')) (Fmul (G c d) (Fmul (delta c' c) (delta d' d))))).
  - rewrite (Fsum2_delta Fring C D c d (λ c' d', Fconj (G' c' d')) (G c d)) by assumption. ring.
  - intros c' d' Hc' Hd'. rewrite Fsum2_mul_l. rewrite Hiso by assumption.
    unfold delta. rewrite (Nat.eqb_sym c c'), (Nat.eqb_sym d d'). ring.
Qed.
End DoubleSums.

Section PhysicalState.
Context {F : Type} {scalar : Scalar F} {collab : Collaborators F}.

(** X9: a disentangler acts on the auxiliary legs only and leaves the
    physical state alone, as the docstring of [disentangle] says: when
    the hook hands back a unitary [U] that is an isometry, the
    wavefunction it hands back, traced over [q0] and [q1] against its
    conjugate, gives the same reduced density matrix of the legs [p0],
    [p1], [vL], [vR] as the wavefunction that came in. *)
Theorem disentangle_keeps_physical_state
    dL dR dp0 dp1 dq0 dq1 (g : list nat → F) i U_bond self self' theta' U :
  scalar_ring F → conj_morphism F →
  let theta := mkArray [Leg dp0; Leg dp1; Leg dL; Leg dR; Leg dq0; Leg dq1]
                       ["p0"; "p1"; "vL"; "vR"; "q0"; "q1"] g in
  disentangle theta i U_bond self = (self', Ok (theta', Some U)) →
  unitary_disentangler dq0 dq1 U →
  labels theta' = ["q0"; "q1"; "p0"; "p1"; "vL"; "vR"] ∧
  ∀ a b l r a' b' l' r',
    Fsum dq0 (λ x, Fsum dq1 (λ y,
      Fmul (data theta' [x; y; a; b; l; r]) (Fconj (data theta' [x; y; a'; b'; l'; r']))))
    = Fsum dq0 (λ c, Fsum dq1 (λ d,
        Fmul (g [a; b; l; r; c; d]) (Fconj (g [a'; b'; l'; r'; c; d])))).
Proof.
  intros Fring Fcj theta E (i' & j' & Hidx & Hi & Hj & Hd & Hl & Hlg & Hiso).
  apply disentangle_applies_unitary in E.
  unfold theta in E.
  rewrite (disentangler_step dL dR dp0 dp1 dq0 dq1 U _ i' j') in E by assumption.
  injection E as <-. split; [reflexivity|].
  intros a b l r a' b' l' r'. simpl.
  assert (Hlen : length (free_axes (rank U) [i'; j']) = 2%nat).
  { apply (f_equal length) in Hl. unfold pick in Hl. rewrite length_map in Hl. exact Hl. }
  unfold contract_data. rewrite Hlen, Hd. simpl.
  unfold place at 2 4. simpl.
  apply (isometry_contract Fring Fcj dq0 dq1 dq0 dq1
           (λ x y c d, disentangler_entry U i' j' x y c d)
           (λ c d, g [a; b; l; r; c; d]) (λ c d, g [a'; b'; l'; r'; c; d])).
  exact Hiso.
Qed.
End PhysicalState.

Section InfiniteTemperature.
Context {F : Type} {scalar : Scalar F} {collab : Collaborators F}.
Hypothesis Fring : scalar_ring F.
Let Fring' : ring_theory F0 F1 Fadd Fmul (λ x y, Fadd x (Fopp y)) Fopp eq := Fring.
Add Ring Fring_inf : Fring'.

Variables dL dR d0 d1 : nat.
Variable lam : nat → nat → F.
Variable u : list nat → F.
Hypothesis Hu : unitary_gate d0 d1 u.

(** The gate on the physical legs followed by its conjugate on the
    auxiliary legs, entry by entry. *)
Lemma gate_then_conjugate x y a b l r :
  x < d0 → y < d1 → a < d0 → b < d1 →
  Fsum d0 (λ c, Fsum d1 (λ d,
    Fmul (Fconj (u [x; y; c; d]))
      (Fsum d0 (λ i, Fsum d1 (λ j,
         Fmul (u [a; b; i; j]) (maximally_entangled lam [l; r; i; j; c; d]))))))
  = maximally_entangled lam [l; r; a; b; x; y].
Proof using Fring Hu.
  intros Hx Hy Ha Hb.
  rewrite (Fsum_ext d0 _ (λ c, Fsum d1 (λ d,
             Fmul (lam l r) (Fmul (u [a; b; c; d]) (Fconj (u [x; y; c; d])))))).
  - rewrite (Fsum_ext d0 _ (λ c, Fmul (lam l r) (Fsum d1 (λ d,
               Fmul (u [a; b; c; d]) (Fconj (u [x; y; c; d]))))))
      by (intros; apply (Fsum_mul_l Fring)).
    rewrite (Fsum_mul_l Fring). rewrite (Hu a b x y) by assumption.
    unfold maximally_entangled. simpl. reflexivity.
  - intros c Hc. apply Fsum_ext. intros d Hd.
    unfold maximally_entangled. simpl.
    rewrite (Fsum2_delta Fring d0 d1 c d (λ i j, u [a; b; i; j]) (lam l r)) by assumption.
    ring.
Qed.

(** X13: on the infinite-temperature state (auxiliary legs maximally
    entangled with the physical ones), in real time and with
    [disentangle = 'backwards'], a unitary gate generates no
    entanglement: the matrix that [update_bond] hands to the
    factorization has the same legs, labels and entries as the matrix of
    the wavefunction before the gate, combined the same way. *)
Theorem backwards_keeps_infinite_temperature_state self i type_evo :
  TEBD_params self !! "disentangle" = Some (PyStr "backwards") →
  _U_param self !! "type_evo" = Some type_evo →
  py_eq_str type_evo "imag" = false →
  get_theta (psi self) (i - 1) 2 (Fin 1)
  = Ok (wavefunction dL dR d0 d1 d0 d1 (maximally_entangled lam)) →
  ∃ theta U theta0,
    two_site_wavefunction i (bond_gate d0 d1 u) self = (self, Ok (theta, Some U)) ∧
    combine_legs (wavefunction dL dR d0 d1 d0 d1 (maximally_entangled lam))
      [["vL"; "p0"; "q0"]; ["vR"; "p1"; "q1"]] None = Ok theta0 ∧
    legs theta = legs theta0 ∧
    labels theta = labels theta0 ∧
    ∀ row col, row < dims_prod [dL; d0; d0] → col < dims_prod [dR; d1; d1] →
      data theta [row; col] = data theta0 [row; col].
Proof using Fring Hu.
  intros Hd Hevo Himag Hget.
  eexists _, _, _. split; [|split; [|split; [|split]]].
  - unfold two_site_wavefunction, disentangle, disentangle_backwards, M_bind, reads, lift,
      get_parameter.
    unfold mbind, M_bind. rewrite Hget. run_tensor. rewrite Hd. simpl.
    rewrite Hevo, Himag. run_tensor. reflexivity.
  - run_tensor. reflexivity.
  - reflexivity.
  - reflexivity.
  - intros row col Hrow Hcol.
    destruct (unravel3_lt _ _ _ _ Hrow) as (Hl & Ha & Hx).
    destruct (unravel3_lt _ _ _ _ Hcol) as (Hr & Hb & Hy).
    unfold combine_data, contract_data, rank, place. simpl.
    apply gate_then_conjugate; assumption.
Qed.
End InfiniteTemperature.

(** *** The Renyi optimizer *)

Lemma renyi_layout_is_disentangler {F} {scalar : Scalar F} dq0 dq1 (U : Array F) :
  renyi_layout dq0 dq1 U → is_disentangler dq0 dq1 U.
Proof.
  destruct U as [lg lb w]. intros [[Hlg Hlb]|[Hlg Hlb]]; simpl in Hlg, Hlb; subst lg lb.
  - exists 1, 3. unfold get_leg_indices, get_leg_index, rank. simpl.
    repeat split; try reflexivity; lia.
  - exists 0, 1. unfold get_leg_indices, get_leg_index, rank. simpl.
    repeat split; try reflexivity; lia.
Qed.

Section RenyiStart.
Context {F : Type} {scalar : Scalar F} {collab : Collaborators F}.
Hypothesis Fring : scalar_ring F.
Let Fring' : ring_theory F0 F1 Fadd Fmul (λ x y, Fadd x (Fopp y)) Fopp eq := Fring.
Add Ring Fring_renyi : Fring'.

(** X14: the Renyi optimizer starts from the identity: with a
    [disent_max_iter <= 0] that [xrange] accepts (a C [long], so not below
    [-2^63]) and [verbose < 10] it runs no iteration and hands back the identity on the legs [q0], [q1] (as
    [outer(eye(q0), eye(q1))], legs [q0], [q0*], [q1], [q1*]) together
    with the wavefunction it was given, the same labelled legs and the
    same entries, the auxiliary legs moved to the front. *)
Theorem disentangle_renyi_no_iteration dL dR dp0 dp1 dq0 dq1 (f : list nat → F) self z :
  TEBD_params self !! "disent_max_iter" = Some (PyInt z) →
  (- 2 ^ 63 ≤ z)%Z →
  (z ≤ 0)%Z →
  (verbose self < 10)%Z →
  let theta := mkArray [Leg dp0; Leg dp1; Leg dL; Leg dR; Leg dq0; Leg dq1]
                       ["p0"; "p1"; "vL"; "vR"; "q0"; "q1"] f in
  ∃ theta' U,
    disentangle_renyi theta self = (self, Ok (theta', Some U)) ∧
    legs U = [Leg dq0; Leg dq0; Leg dq1; Leg dq1] ∧
    labels U = ["q0"; "q0*"; "q1"; "q1*"] ∧
    (∀ a a' b b', data U [a; a'; b; b'] = Fmul (delta a a') (delta b b')) ∧
    same_tensor theta' theta.
Proof using Fring.
  intros Hz Hlow Hz0 Hv theta.
  assert (Hg : get_parameter (TEBD_params self) "disent_max_iter" (PyInt 20) = PyInt z)
    by (unfold get_parameter; rewrite Hz; reflexivity).
  assert (Hx : py_xrange (PyInt z) = Ok 0).
  { unfold py_xrange.
    replace ((- 2 ^ 63 <=? z) && (z <? 2 ^ 63))%Z with true
      by (symmetry; apply andb_true_intro; split; [apply Z.leb_le | apply Z.ltb_lt]; lia).
    f_equal. lia. }
  assert (Hverb : py_ge (verbose self) 10 = false) by (unfold py_ge; lia).
  eexists _, _. split; [|split; [|split; [|split]]].
  - unfold disentangle_renyi, reads, lift. unfold mbind, M_bind.
    rewrite Hg, Hx.
    run_tensor. rewrite Hverb. reflexivity.
  - reflexivity.
  - reflexivity.
  - intros a a' b b'. reflexivity.
  - split.
    + simpl.
      change (([("q0", Leg dq0); ("q1", Leg dq1)]
               ++ [("p0", Leg dp0); ("p1", Leg dp1); ("vL", Leg dL); ("vR", Leg dR)])
              ≡ₚ ([("p0", Leg dp0); ("p1", Leg dp1); ("vL", Leg dL); ("vR", Leg dR)]
                  ++ [("q0", Leg dq0); ("q1", Leg dq1)])).
      apply Permutation_app_comm.
    + intros env Hr. range_of Hr.
      unfold entry, contract_data, rank, place. simpl.
      set (l := env "vL") in *. set (r := env "vR") in *.
      set (a := env "p0") in *. set (b := env "p1") in *.
      set (c := env "q0") in *. set (d := env "q1") in *.
      rewrite (Fsum_ext dq0 _ (λ i, Fsum dq1 (λ j,
                 Fmul (f [a; b; l; r; i; j]) (Fmul F1 (Fmul (delta i c) (delta j d)))))).
      * rewrite (Fsum2_delta Fring dq0 dq1 c d (λ i j, f [a; b; l; r; i; j]) F1) by assumption.
        ring.
      * intros i Hi. apply Fsum_ext. intros j Hj.
        unfold delta. rewrite (Nat.eqb_sym i c), (Nat.eqb_sym j d). ring.
Qed.
End RenyiStart.

Section RenyiReturns.
Context {F : Type} {scalar : Scalar F} {collab : Collaborators F}.
Variables dL dR dp0 dp1 dq0 dq1 : nat.
Variable g : list nat → F.
Hypothesis Hsvd : svd_keeps_legs svd.

Local Abbreviation theta := (mkArray [Leg dp0; Leg dp1; Leg dL; Leg dR; Leg dq0; Leg dq1]
                               ["p0"; "p1"; "vL"; "vR"; "q0"; "q1"] g).

(** One iteration returns, and hands back a disentangler with the legs
    [q0*], [q1*], [q0], [q1]. *)
Lemma disentangle_renyi_iter_returns U self :
  renyi_layout dq0 dq1 U →
  ∃ S' U', disentangle_renyi_iter theta U self = (self, Ok (S', U')) ∧
           legs U' = [Leg dq0; Leg dq1; Leg dq0; Leg dq1] ∧
           labels U' = ["q0*"; "q1*"; "q0"; "q1"].
Proof using Hsvd.
  intros HU. destruct U as [lg lb w].
  unfold disentangle_renyi_iter, lift. unfold mbind, M_bind.
  destruct HU as [[Hlg Hlb]|[Hlg Hlb]]; simpl in Hlg, Hlb; subst lg lb.
  - run_tensor.
    match goal with |- context [svd ?a] =>
      destruct (Hsvd a _ _ _ _ eq_refl eq_refl) as (W & Y & VH & k & -> & HW & HWl & HV & HVl) end.
    destruct W as [Wl Wb Wd], VH as [Vl Vb Vd]. simpl in *. subst.
    run_tensor. eexists _, _. split; [reflexivity|]. split; reflexivity.
  - run_tensor.
    match goal with |- context [svd ?a] =>
      destruct (Hsvd a _ _ _ _ eq_refl eq_refl) as (W & Y & VH & k & -> & HW & HWl & HV & HVl) end.
    destruct W as [Wl Wb Wd], VH as [Vl Vb Vd]. simpl in *. subst.
    run_tensor. eexists _, _. split; [reflexivity|]. split; reflexivity.
Qed.

Lemma renyi_loop_returns eps n self : ∀ i v,
  renyi_layout dq0 dq1 (var_U v) →
  ∃ v', renyi_loop theta eps n i v self = (self, Ok v') ∧ renyi_layout dq0 dq1 (var_U v').
Proof using Hsvd.
  induction n as [|n IH]; intros i v Hv.
  - exists v. split; [reflexivity | assumption].
  - destruct (disentangle_renyi_iter_returns (var_U v) self Hv) as (S' & U' & E & Hlg & Hlb).
    change (renyi_loop theta eps (S n) i v)
      with ('(S', U) ← disentangle_renyi_iter theta (var_U v);
            if py_float_lt (fl_abs (fl_sub (var_Sold v) S')) eps
            then mret (mkRenyiVars U (var_Sold v) (Some S') (Some i))
            else renyi_loop theta eps n (S i)
                   (mkRenyiVars U S' (Some (var_Sold v)) (Some i))).
    unfold mbind, M_bind. rewrite E.
    destruct (py_float_lt _ _).
    + eexists. split; [reflexivity|]. right. auto.
    + apply IH. right. auto.
Qed.

(** X15: on a two-site wavefunction with the legs [update_bond] hands
    to the hook, and with an [npc.svd] that factorizes every matrix it is
    given, [disentangle_renyi] returns, whatever the threshold and the
    number of iterations [xrange] accepts (a C [long], from [-2^63] to
    [2^63 - 1]): it raises nothing as long as [disent_max_iter >= 1] or
    [verbose < 10].  The unitary it hands back
    has the legs [q0], [q1], [q0*], [q1*] of the dimensions of the
    auxiliary legs, and the wavefunction the legs of the one that came
    in, the auxiliary legs first. *)
Theorem disentangle_renyi_returns self z :
  get_parameter (TEBD_params self) "disent_max_iter" (PyInt 20) = PyInt z →
  (- 2 ^ 63 ≤ z < 2 ^ 63)%Z →
  (1 ≤ z)%Z ∨ (verbose self < 10)%Z →
  ∃ theta' U,
    disentangle_renyi theta self = (self, Ok (theta', Some U)) ∧
    renyi_layout dq0 dq1 U ∧
    is_disentangler dq0 dq1 U ∧
    legs theta' = [Leg dq0; Leg dq1; Leg dp0; Leg dp1; Leg dL; Leg dR] ∧
    labels theta' = ["q0"; "q1"; "p0"; "p1"; "vL"; "vR"].
Proof using Hsvd.
  intros Hz Hlong Hcase.
  assert (Hx : py_xrange (PyInt z) = Ok (Z.to_nat z)).
  { unfold py_xrange.
    replace ((- 2 ^ 63 <=? z) && (z <? 2 ^ 63))%Z with true
      by (symmetry; apply andb_true_intro; split; [apply Z.leb_le | apply Z.ltb_lt]; lia).
    reflexivity. }
  unfold disentangle_renyi, reads, lift. unfold mbind, M_bind. rewrite Hz, Hx.
  run_tensor.
  set (eps := get_parameter _ "disent_eps" _).
  set (v0 := mkRenyiVars _ _ _ _).
  assert (H0 : renyi_layout dq0 dq1 (var_U v0)) by (left; split; reflexivity).
  destruct (renyi_loop_returns eps (Z.to_nat z) self 0 v0 H0) as (v' & E & Hv').
  rewrite E.
  assert (Hprint : py_ge (verbose self) 10 = false
                   ∨ ∃ k S0, var_i v' = Some k ∧ var_S v' = Some S0).
  { destruct Hcase as [Hz1|Hv]; [right|left; unfold py_ge; lia].
    destruct (Z.to_nat z) as [|n] eqn:En; [lia|].
    apply renyi_loop_exit in E as (k & S' & Hi & HS & _). eauto. }
  pose proof (renyi_layout_is_disentangler _ _ _ Hv') as Hdis.
  destruct v' as [[lg lb w] Sold S' i']. simpl in Hv', Hprint, Hdis |- *.
  destruct Hv' as [[Hlg Hlb]|[Hlg Hlb]]; simpl in Hlg, Hlb; subst lg lb;
    (destruct Hprint as [Hverb|(k & S0 & -> & ->)];
     [|destruct (py_ge (verbose self) 10) eqn:Hverb]);
    run_tensor; rewrite ?Hverb;
    (eexists _, _; split; [reflexivity|]; split; [|split; [exact Hdis|split; reflexivity]]);
    first [left; split; reflexivity | right; split; reflexivity].
Qed.
End RenyiReturns.

(** *** A bond update that returns *)

Section UpdateBondReturns.
Context {F : Type} {scalar : Scalar F} {collab : Collaborators F}.
Variables dL dR dp0 dp1 dq0 dq1 : nat.
Variables th c u : list nat → F.
Hypothesis Hsvd : svd_theta_keeps_legs svd_theta.

(** X5: the leg bookkeeping of [update_bond] is consistent.  When the
    state hands out two-site wavefunctions with the legs [vL], [vR],
    [p0], [p1], [q0], [q1], the gate has the legs [p0], [p1], [p0*],
    [p1*] of the physical dimensions, [svd_theta] factorizes the matrix
    it is given, the disentangler hook returns and what it hands back (if
    anything) has legs [q0*], [q1*] of the auxiliary dimensions besides
    [q0], [q1], and the bond index is one the accumulator list accepts,
    then [update_bond] returns: no contraction, combination, split or
    relabelling in it raises. *)
Theorem update_bond_returns i self self1 theta1 theta2 U_disent :
  get_theta (psi self) (i - 1) 2 (Fin 1) = Ok (wavefunction dL dR dp0 dp1 dq0 dq1 th) →
  get_theta (psi self) (i - 1) 2 (Fin 0) = Ok (wavefunction dL dR dp0 dp1 dq0 dq1 c) →
  tensordot (bond_gate dp0 dp1 u) (wavefunction dL dR dp0 dp1 dq0 dq1 th)
    ["p0*"; "p1*"] ["p0"; "p1"] = Ok theta1 →
  disentangle theta1 i (bond_gate dp0 dp1 u) self = (self1, Ok (theta2, U_disent)) →
  (∀ U, U_disent = Some U → is_disentangler dq0 dq1 U) →
  is_Ok (py_index (length (_trunc_err_bonds self)) i) = true →
  ∃ self' err, update_bond i (bond_gate dp0 dp1 u) self = (self', Ok err).
Proof using Hsvd.
  intros Hth Hc Hg Hd HU Hidx.
  destruct (py_getitem_Ok _ _ Hidx) as (k & old & Hget & _).
  pose proof (disentangle_preserves _ _ _ _ _ _ Hd) as ->.
  pose proof (disentangle_applies_unitary _ _ _ _ _ _ _ Hd) as Happ.
  pose proof Hg as Hg'. rewrite gate_step in Hg'. injection Hg' as <-.
  unfold update_bond, reads, lift, modify. unfold mbind at 1 2 3. unfold M_bind.
  rewrite Hth, Hg, Hd.
  destruct U_disent as [Ud|].
  - destruct (HU Ud eq_refl) as (i' & j' & Hix & Hi & Hj & Hdm & Hl & Hlg).
    rewrite (disentangler_step dL dR dp0 dp1 dq0 dq1 Ud _ i' j') in Happ by assumption.
    injection Happ as <-.
    unfold mbind at 1 2. unfold M_bind.
    run_legs.
    match goal with |- context [svd_theta ?a ?p [?x; ?y]] =>
      destruct (Hsvd a p _ _ _ _ x y eq_refl eq_refl)
        as (U & S' & V & err & rn & chi & -> & HUl & HUb & HVl & HVb) end.
    destruct V as [Vl Vb Vd]. simpl in *. subst.
    run_legs. rewrite Hc.
    rewrite (gate_step dL dR dp0 dp1 dq0 dq1 u c).
    rewrite (disentangler_step dL dR dp0 dp1 dq0 dq1 Ud _ i' j') by assumption.
    run_tensor. rewrite Hget. eexists _, _. reflexivity.
  - subst theta2.
    unfold mbind at 1 2. unfold M_bind.
    run_legs.
    match goal with |- context [svd_theta ?a ?p [?x; ?y]] =>
      destruct (Hsvd a p _ _ _ _ x y eq_refl eq_refl)
        as (U & S' & V & err & rn & chi & -> & HUl & HUb & HVl & HVb) end.
    destruct V as [Vl Vb Vd]. simpl in *. subst.
    run_legs. rewrite Hc.
    rewrite (gate_step dL dR dp0 dp1 dq0 dq1 u c).
    run_tensor. rewrite Hget. eexists _, _. reflexivity.
Qed.
End UpdateBondReturns.

Transparent unravel ravel.
(** *** The properties of this part on concrete inputs *)

Lemma Z_conj_morphism : conj_morphism Z.
Proof. repeat split. Qed.

Lemma chain_svd_keeps_legs : svd_keeps_legs chain_svd.
Proof.
  intros a l0 l1 lb0 lb1 Hl Hb. unfold chain_svd. rewrite Hl, Hb. simpl.
  eexists _, _, _, 1. split; [reflexivity|]. repeat split.
Qed.

Lemma chain_svd_theta_keeps_legs : svd_theta_keeps_legs chain_svd_theta.
Proof.
  intros a params l0 l1 lb0 lb1 in0 in1 Hl Hb. unfold chain_svd_theta. rewrite Hl, Hb. simpl.
  eexists _, _, _, _, _, 1. split; [reflexivity|]. repeat split.
Qed.

(** The conjugate of the swap gate, as a disentangler, is an isometry. *)
Lemma swap_disentangler_unitary :
  unitary_disentangler 2 2
    (mkArray [Leg 2; Leg 2; Leg 2; Leg 2] ["q0"; "q1"; "q0*"; "q1*"]
       (λ idx, Fconj (swap_gate idx))).
Proof.
  exists 2, 3. unfold get_leg_indices, get_leg_index, rank. simpl.
  repeat split; try reflexivity; try lia.
  intros c d c' d' Hc Hd Hc' Hd'.
  destruct c as [|[|c]]; [| |lia]; destruct d as [|[|d]]; [| |lia | | |lia];
    destruct c' as [|[|c']]; try lia; destruct d' as [|[|d']]; try lia; reflexivity.
Qed.

(** The right tensor a bond update of the chain stores. *)
Lemma update_bond_right_tensor_witness :
  ∃ theta U_disent U S' V renormalize B_L B_R,
    two_site_wavefunction 1 chain_gate (chain_engine ∅ 0)
    = (chain_engine ∅ 0, Ok (theta, U_disent)) ∧
    svd_theta theta ∅ ["vR"; "vL"] = Ok (U, S', V, 0%Z, renormalize) ∧
    psi (update_bond 1 chain_gate (chain_engine ∅ 0)).1
    = set_B (set_B (set_SR (psi (chain_engine ∅ 0)) (1 - 1) S') (1 - 1) B_L "B") 1 B_R "B" ∧
    ∀ chi dR dp1 dq1,
      legs V = [Leg chi; LegPipe [Leg dR; Leg dp1; Leg dq1]] →
      labels V = ["vL"; "(vR.p1.q1)"] →
      legs B_R = [Leg chi; Leg dR; Leg dp1; Leg dq1] ∧
      labels B_R = ["vL"; "vR"; "p"; "q"] ∧
      ∀ k r b d, data B_R [k; r; b; d] = data V [k; ravel [dR; dp1; dq1] [r; b; d]].
Proof.
  apply (update_bond_right_tensor (collab := Chain_Collaborators) 1%Z chain_gate
           (chain_engine ∅ 0) (update_bond 1 chain_gate (chain_engine ∅ 0)).1 0%Z).
  vm_compute. reflexivity.
Defined.

(** A bond update on the chain, run through its leg bookkeeping. *)
Lemma update_bond_returns_witness :
  ∃ self' err, update_bond 1 (bond_gate 1 1 (λ _, 1%Z)) (chain_engine ∅ 0) = (self', Ok err).
Proof.
  assert (Hg : ∃ theta1, tensordot (bond_gate 1 1 (λ _, 1%Z))
                           (wavefunction 1 1 1 1 1 1 (λ _, 6%Z)) ["p0*"; "p1*"] ["p0"; "p1"]
                         = Ok theta1) by (eexists; apply gate_step).
  destruct Hg as [theta1 Hg].
  apply (update_bond_returns (collab := Chain_Collaborators) 1 1 1 1 1 1 (λ _, 6%Z) (λ _, 6%Z) (λ _, 1%Z)
           chain_svd_theta_keeps_legs 1%Z (chain_engine ∅ 0) (chain_engine ∅ 0)
           theta1 theta1 None).
  - reflexivity.
  - reflexivity.
  - exact Hg.
  - reflexivity.
  - intros U [=].
  - reflexivity.
Defined.

Lemma disentangle_keeps_physical_state_witness :
  ∃ theta' U,
    disentangle (gated_theta 2 (λ _, 1%Z)) 1 (bond_gate 2 2 swap_gate)
      (backwards_engine (Some "real"))
    = (backwards_engine (Some "real"), Ok (theta', Some U)) ∧
    labels theta' = ["q0"; "q1"; "p0"; "p1"; "vL"; "vR"] ∧
    ∀ a b l r a' b' l' r',
      Fsum 2 (λ x, Fsum 2 (λ y,
        Fmul (data theta' [x; y; a; b; l; r]) (Fconj (data theta' [x; y; a'; b'; l'; r']))))
      = 4%Z.
Proof.
  eexists _, _.
  match goal with |- ?lhs = (?s, Ok (?t, Some ?U)) ∧ _ =>
    assert (H : lhs = (s, Ok (t, Some U))) by (vm_compute; reflexivity)
  end.
  split; [exact H|].
  exact (disentangle_keeps_physical_state 1 1 2 2 2 2 (λ _, 1%Z) 1%Z (bond_gate 2 2 swap_gate)
           (backwards_engine (Some "real")) (backwards_engine (Some "real")) _ _
           Z_scalar_ring Z_conj_morphism H swap_disentangler_unitary).
Defined.

Lemma disentangle_backwards_conjugates_gate_witness :
  ∃ theta' U,
    disentangle_backwards chain_theta (bond_gate 1 1 (λ _, 1%Z)) (backwards_engine (Some "real"))
    = (backwards_engine (Some "real"), Ok (theta', Some U)) ∧
    U = mkArray [Leg 1; Leg 1; Leg 1; Leg 1] ["q0"; "q1"; "q0*"; "q1*"] (λ _, 1%Z) ∧
    is_disentangler 1 1 U.
Proof.
  eexists _, _.
  match goal with |- ?lhs = (?s, Ok (?t, Some ?U)) ∧ _ =>
    assert (H : lhs = (s, Ok (t, Some U))) by (vm_compute; reflexivity)
  end.
  split; [exact H|].
  exact (disentangle_backwards_conjugates_gate 1 1 (λ _, 1%Z) _ _ _ _ _ H).
Defined.

(** The swap gate on the infinite-temperature state of two sites of
    dimension two. *)
Lemma backwards_keeps_infinite_temperature_state_witness :
  ∃ theta U theta0,
    two_site_wavefunction (collab := Pair_Collaborators) 1 (bond_gate 2 2 swap_gate)
      infinite_temperature_engine
    = (infinite_temperature_engine, Ok (theta, Some U)) ∧
    combine_legs (wavefunction 1 1 2 2 2 2 (maximally_entangled (λ _ _, 1%Z)))
      [["vL"; "p0"; "q0"]; ["vR"; "p1"; "q1"]] None = Ok theta0 ∧
    legs theta = legs theta0 ∧
    labels theta = labels theta0 ∧
    ∀ row col, row < dims_prod [1; 2; 2] → col < dims_prod [1; 2; 2] →
      data theta [row; col] = data theta0 [row; col].
Proof.
  apply (backwards_keeps_infinite_temperature_state (collab := Pair_Collaborators) Z_scalar_ring 1 1 2 2 (λ _ _, 1%Z)
           swap_gate swap_gate_unitary infinite_temperature_engine 1%Z (PyStr "real"));
    reflexivity.
Defined.

Lemma disentangle_renyi_no_iteration_witness :
  ∃ theta' U,
    disentangle_renyi (gated_theta 1 (λ _, 1%Z))
      (chain_engine (<["disent_max_iter" := PyInt 0]> {["disentangle" := PyStr "renyi"]}) 0)
    = (chain_engine (<["disent_max_iter" := PyInt 0]> {["disentangle" := PyStr "renyi"]}) 0,
       Ok (theta', Some U)) ∧
    legs U = [Leg 1; Leg 1; Leg 1; Leg 1] ∧
    labels U = ["q0"; "q0*"; "q1"; "q1*"] ∧
    (∀ a a' b b', data U [a; a'; b; b'] = Fmul (delta a a') (delta b b')) ∧
    same_tensor theta' (gated_theta 1 (λ _, 1%Z)).
Proof.
  apply (disentangle_renyi_no_iteration Z_scalar_ring 1 1 1 1 1 1 (λ _, 1%Z)
           (chain_engine (<["disent_max_iter" := PyInt 0]> {["disentangle" := PyStr "renyi"]}) 0)
           0%Z); [reflexivity | lia | lia | reflexivity].
Defined.

(** The Renyi optimizer on the chain, with the default twenty
    iterations. *)
Lemma disentangle_renyi_returns_witness :
  ∃ theta' U,
    disentangle_renyi (gated_theta 1 (λ _, 1%Z))
      (chain_engine {["disentangle" := PyStr "renyi"]} 10)
    = (chain_engine {["disentangle" := PyStr "renyi"]} 10, Ok (theta', Some U)) ∧
    renyi_layout 1 1 U ∧
    is_disentangler 1 1 U ∧
    legs theta' = [Leg 1; Leg 1; Leg 1; Leg 1; Leg 1; Leg 1] ∧
    labels theta' = ["q0"; "q1"; "p0"; "p1"; "vL"; "vR"].
Proof.
  apply (disentangle_renyi_returns (collab := Chain_Collaborators) 1 1 1 1 1 1 (λ _, 1%Z) chain_svd_keeps_legs
           (chain_engine {["disentangle" := PyStr "renyi"]} 10) 20%Z);
    [reflexivity | lia | left; lia].
Defined.
